(** * Calculus-Visualizer: sampling, viewport transform and path animation

    A shallow embedding of the numeric core of
    [src/app/page.tsx] (component [DerivativeVisualizer]) and of
    [src/components/derivative-graph.tsx] (component [DerivativeGraph]).

    Numbers.  A JavaScript number is modelled by [jsnum]: an exact rational
    or one of the three special values [+Infinity], [-Infinity], [NaN].
    Arithmetic on finite values is exact (no rounding, no overflow) and the
    zero has no sign; the special values follow IEEE-754 as JavaScript
    exposes them.  A statement that holds of the exact values only says so;
    where a statement turns on the rounding itself, the function concerned
    is given once more, in [Doubles], on the binary64 numbers of the
    kernel.

    Evaluation.  The expression evaluator of mathjs is an external
    capability.  It is a parameter [evaluator] of every definition that
    calls it: given the expression text and the value bound to [x] it
    returns a number or raises.  The component's own type annotation
    ([{ x: number; y: number; dy: number; tangent?: number }]) fixes the
    results to numbers.

    A result [undefined] (mathjs on an empty expression) is only ever
    consumed by arithmetic and by truthiness tests, where it behaves as
    [NaN]; it is represented by [NaN].

    Text.  A string is the sequence of the bytes of its UTF-8 encoding.

    Exceptions.  Code that can raise lives in the [outcome] monad;
    [try_catch] is the [try { } catch (e) { }] statement.

    State.  The [useState] and [useRef] cells of a component are a record;
    a handler is a function from the state of the render that created it
    (its closure) and the current state to the next state. *)

From Stdlib Require Import QArith Qround Qabs ZArith List Sorted String Ascii Bool Lia Lqa.
From Corelib Require PrimFloat.
Import ListNotations.

Set Implicit Arguments.

(* ================================================================== *)
(** ** JavaScript numbers *)

Module JS.

Inductive jsnum : Type :=
| Fin (q : Q)
| PInf
| NInf
| NaN.

Definition of_Z (z : Z) : jsnum := Fin (inject_Z z).
Definition of_nat (n : nat) : jsnum := of_Z (Z.of_nat n).

Definition Qis_zero (q : Q) : bool := (Qnum q =? 0)%Z.
Definition Qis_pos (q : Q) : bool := (0 <? Qnum q)%Z.
Definition Qis_neg (q : Q) : bool := (Qnum q <? 0)%Z.
Definition Qltb (a b : Q) : bool := negb (Qle_bool b a).

(** Unary minus. *)
Definition jneg (a : jsnum) : jsnum :=
  match a with
  | Fin q => Fin (- q)
  | PInf => NInf
  | NInf => PInf
  | NaN => NaN
  end.

(** [a + b]. *)
Definition jadd (a b : jsnum) : jsnum :=
  match a, b with
  | NaN, _ | _, NaN => NaN
  | Fin p, Fin q => Fin (p + q)
  | PInf, NInf | NInf, PInf => NaN
  | PInf, _ | _, PInf => PInf
  | NInf, _ | _, NInf => NInf
  end.

(** [a - b]. *)
Definition jsub (a b : jsnum) : jsnum := jadd a (jneg b).

(** An infinity of the sign of [q] times the sign [pos]; [0 * Infinity] is
    [NaN]. *)
Definition inf_signed (pos : bool) (q : Q) : jsnum :=
  if Qis_zero q then NaN
  else if Bool.eqb pos (Qis_pos q) then PInf else NInf.

(** [a * b]. *)
Definition jmul (a b : jsnum) : jsnum :=
  match a, b with
  | NaN, _ | _, NaN => NaN
  | Fin p, Fin q => Fin (p * q)
  | PInf, Fin q | Fin q, PInf => inf_signed true q
  | NInf, Fin q | Fin q, NInf => inf_signed false q
  | PInf, PInf | NInf, NInf => PInf
  | PInf, NInf | NInf, PInf => NInf
  end.

(** [a / b].  A finite non-zero value over zero is an infinity, [0 / 0] is
    [NaN], a finite value over an infinity is [0]. *)
Definition jdiv (a b : jsnum) : jsnum :=
  match a, b with
  | NaN, _ | _, NaN => NaN
  | Fin p, Fin q =>
      if Qis_zero q then
        (if Qis_zero p then NaN else if Qis_pos p then PInf else NInf)
      else Fin (p / q)
  | Fin _, (PInf | NInf) => Fin 0
  | (PInf | NInf), (PInf | NInf) => NaN
  | PInf, Fin q => if Qis_neg q then NInf else PInf
  | NInf, Fin q => if Qis_neg q then PInf else NInf
  end.

(** [a < b]; every comparison with [NaN] is false. *)
Definition jlt (a b : jsnum) : bool :=
  match a, b with
  | NaN, _ | _, NaN => false
  | Fin p, Fin q => Qltb p q
  | NInf, (Fin _ | PInf) => true
  | Fin _, PInf => true
  | _, _ => false
  end.

(** [a <= b]. *)
Definition jle (a b : jsnum) : bool :=
  match a, b with
  | NaN, _ | _, NaN => false
  | Fin p, Fin q => Qle_bool p q
  | NInf, _ => true
  | _, PInf => true
  | _, _ => false
  end.

Definition jgt (a b : jsnum) : bool := jlt b a.
Definition jge (a b : jsnum) : bool := jle b a.

(** [a === b] on numbers: [NaN] differs from itself. *)
Definition jeqb (a b : jsnum) : bool :=
  match a, b with
  | Fin p, Fin q => Qeq_bool p q
  | PInf, PInf | NInf, NInf => true
  | _, _ => false
  end.

(** The globals [isNaN] and [isFinite] on a number. *)
Definition isNaN (a : jsnum) : bool :=
  match a with NaN => true | _ => false end.

Definition isFinite (a : jsnum) : bool :=
  match a with Fin _ => true | _ => false end.

(** [Math.abs], [Math.floor], [Math.max], [Math.min]. *)
Definition Math_abs (a : jsnum) : jsnum :=
  match a with
  | Fin q => Fin (Qabs q)
  | PInf | NInf => PInf
  | NaN => NaN
  end.

Definition Math_floor (a : jsnum) : jsnum :=
  match a with
  | Fin q => of_Z (Qfloor q)
  | other => other
  end.

Definition Math_max (a b : jsnum) : jsnum :=
  match a, b with
  | NaN, _ | _, NaN => NaN
  | _, _ => if jlt a b then b else a
  end.

Definition Math_min (a b : jsnum) : jsnum :=
  match a, b with
  | NaN, _ | _, NaN => NaN
  | _, _ => if jlt b a then b else a
  end.

(** Truthiness of a number: [0] and [NaN] are falsy. *)
Definition truthy (a : jsnum) : bool :=
  match a with
  | Fin q => negb (Qis_zero q)
  | PInf | NInf => true
  | NaN => false
  end.

(** Equality of numbers up to the representation of the rational. *)
Definition same (a b : jsnum) : Prop :=
  match a, b with
  | Fin p, Fin q => p == q
  | PInf, PInf | NInf, NInf | NaN, NaN => True
  | _, _ => False
  end.

(** [a] is a real number: neither [NaN] nor an infinity. *)
Definition finite (a : jsnum) : Prop := exists q, a = Fin q.

End JS.

Export JS.

Declare Scope js_scope.
Delimit Scope js_scope with js.
Infix "+" := jadd : js_scope.
Infix "-" := jsub : js_scope.
Infix "*" := jmul : js_scope.
Infix "/" := jdiv : js_scope.
Notation "- a" := (jneg a) : js_scope.

(* ================================================================== *)
(** ** Exceptions *)

Inductive js_error : Type :=
| TypeError (msg : string)
| Error (msg : string).

(** [e.message]. *)
Definition message (e : js_error) : string :=
  match e with TypeError msg | Error msg => msg end.

Inductive outcome (A : Type) : Type :=
| Ret (a : A)
| Throw (e : js_error).

Arguments Ret {A} a.
Arguments Throw {A} e.

Definition bind {A B} (m : outcome A) (k : A -> outcome B) : outcome B :=
  match m with
  | Ret a => k a
  | Throw e => Throw e
  end.

Notation "x <- m ;; k" := (bind m (fun x => k))
  (at level 61, m at next level, right associativity).

(** [try { body } catch (e) { handler e }]. *)
Definition try_catch {A} (body : outcome A) (handler : js_error -> outcome A)
  : outcome A :=
  match body with
  | Ret a => Ret a
  | Throw e => handler e
  end.

(** A [for] loop over the index values [xs], threading the loop state and
    stopping at the first exception. *)
Fixpoint for_each {I S} (xs : list I) (body : I -> S -> outcome S) (s : S)
  : outcome S :=
  match xs with
  | [] => Ret s
  | i :: rest => s' <- body i s ;; for_each rest body s'
  end.

(** The index values of [for (let i = 0; i <= n; i++)]. *)
Definition upto (n : nat) : list nat := seq 0 (S n).

(** The evaluation capability [math.evaluate(expr, { x })]. *)
Definition evaluator : Type := string -> jsnum -> outcome jsnum.

(* ================================================================== *)
(** ** [src/app/page.tsx]: the [DerivativeVisualizer] component *)

Module Page.

Open Scope js_scope.

(** The rule tabs of the component. *)
Inductive tab : Type := trig | product | quotient | chain | custom.

Definition tab_eqb (a b : tab) : bool :=
  match a, b with
  | trig, trig | product, product | quotient, quotient
  | chain, chain | custom, custom => true
  | _, _ => false
  end.

Record PredefinedFunction : Type := mkPredefined {
  name : string;
  derivative : string
}.

Definition predefinedFunctions (t : tab) : list PredefinedFunction :=
  match t with
  | trig =>
      [ mkPredefined "sin(x)" "cos(x)";
        mkPredefined "cos(x)" "-sin(x)";
        mkPredefined "tan(x)" "sec(x)^2" ]
  | product =>
      [ mkPredefined "x * sin(x)" "sin(x) + x * cos(x)";
        mkPredefined "x^2 * cos(x)" "2 * x * cos(x) - x^2 * sin(x)";
        mkPredefined "e^x * x" "e^x * (x + 1)" ]
  | quotient =>
      [ mkPredefined "sin(x) / x" "(x * cos(x) - sin(x)) / x^2";
        mkPredefined "x / cos(x)" "(cos(x) - x * sin(x)) / cos(x)^2";
        mkPredefined "(x^2 + 1) / x" "(x^2 - 1) / x^2" ]
  | chain =>
      [ mkPredefined "sin(x^2)" "2 * x * cos(x^2)";
        mkPredefined "e^sin(x)" "cos(x) * e^sin(x)";
        mkPredefined "ln(cos(x))" "-tan(x)" ]
  | custom => [ mkPredefined "sin(x)" "cos(x)" ]
  end%string.

(** A point [{ x, y }] of a curve, in mathematical or in SVG coordinates. *)
Record Point : Type := mkPoint { x : jsnum; y : jsnum }.

(** The highlighted point [{ x, y, dy }]. *)
Record Highlight : Type := mkHighlight { hx : jsnum; hy : jsnum; hdy : jsnum }.

(** The text shown as the derivative: a formula, or the template
    [Numerical derivative at x=0: ${derValue.toFixed(4)}] kept as its
    number. *)
Inductive derived_text : Type :=
| DerivedExpr (s : string)
| DerivedNumeric (derValue : jsnum).

(** The [useState]/[useRef] cells of the component, grouped. *)
Record Inputs : Type := mkInputs {
  activeTab : tab;
  customFunction : string;
  viewRange : jsnum * jsnum
}.

Record ViewportState : Type := mkViewport {
  zoomLevel : jsnum;
  panOffset : Point;
  svgWidth : jsnum;
  svgHeight : jsnum
}.

Record Graph : Type := mkGraph {
  points : list Point;
  derivativePoints : list Point;
  derivedFunction : derived_text;
  errorMessage : string
}.

Record AnimationState : Type := mkAnimation {
  isAnimating : bool;
  animationProgress : jsnum;
  animationRef : option jsnum;
  animationSpeed : jsnum
}.

Record Pointer : Type := mkPointer {
  highlighted : bool;
  highlightPoint : Highlight;
  isDragging : bool;
  lastMousePos : Point
}.

Record AppState : Type := mkApp {
  inputs : Inputs;
  viewport : ViewportState;
  graph : Graph;
  animation : AnimationState;
  pointer : Pointer
}.

(** The state of the first render. *)
Definition initial : AppState :=
  mkApp (mkInputs trig "sin(x)" (of_Z (-10), of_Z 10))
        (mkViewport (of_Z 1) (mkPoint (of_Z 0) (of_Z 0)) (of_Z 0) (of_Z 0))
        (mkGraph [] [] (DerivedExpr "") "")
        (mkAnimation false (of_Z 0) None (of_Z 1))
        (mkPointer false (mkHighlight (of_Z 0) (of_Z 0) (of_Z 0)) false
                   (mkPoint (of_Z 0) (of_Z 0))).

(** *** State setters *)

Definition setActiveTab (v : tab) (s : AppState) : AppState :=
  mkApp (mkInputs v (customFunction (inputs s)) (viewRange (inputs s)))
        (viewport s) (graph s) (animation s) (pointer s).

Definition setCustomFunction (v : string) (s : AppState) : AppState :=
  mkApp (mkInputs (activeTab (inputs s)) v (viewRange (inputs s)))
        (viewport s) (graph s) (animation s) (pointer s).

Definition setViewRange (v : jsnum * jsnum) (s : AppState) : AppState :=
  mkApp (mkInputs (activeTab (inputs s)) (customFunction (inputs s)) v)
        (viewport s) (graph s) (animation s) (pointer s).

Definition setZoomLevel (v : jsnum) (s : AppState) : AppState :=
  let w := viewport s in
  mkApp (inputs s) (mkViewport v (panOffset w) (svgWidth w) (svgHeight w))
        (graph s) (animation s) (pointer s).

Definition setPanOffset (v : Point) (s : AppState) : AppState :=
  let w := viewport s in
  mkApp (inputs s) (mkViewport (zoomLevel w) v (svgWidth w) (svgHeight w))
        (graph s) (animation s) (pointer s).

Definition setSvgSize (w h : jsnum) (s : AppState) : AppState :=
  let v := viewport s in
  mkApp (inputs s) (mkViewport (zoomLevel v) (panOffset v) w h)
        (graph s) (animation s) (pointer s).

Definition setPoints (v : list Point) (s : AppState) : AppState :=
  let g := graph s in
  mkApp (inputs s) (viewport s)
        (mkGraph v (derivativePoints g) (derivedFunction g) (errorMessage g))
        (animation s) (pointer s).

Definition setDerivativePoints (v : list Point) (s : AppState) : AppState :=
  let g := graph s in
  mkApp (inputs s) (viewport s)
        (mkGraph (points g) v (derivedFunction g) (errorMessage g))
        (animation s) (pointer s).

Definition setDerivedFunction (v : derived_text) (s : AppState) : AppState :=
  let g := graph s in
  mkApp (inputs s) (viewport s)
        (mkGraph (points g) (derivativePoints g) v (errorMessage g))
        (animation s) (pointer s).

Definition setErrorMessage (v : string) (s : AppState) : AppState :=
  let g := graph s in
  mkApp (inputs s) (viewport s)
        (mkGraph (points g) (derivativePoints g) (derivedFunction g) v)
        (animation s) (pointer s).

Definition setAnimationProgress (f : jsnum -> jsnum) (s : AppState) : AppState :=
  let a := animation s in
  mkApp (inputs s) (viewport s) (graph s)
        (mkAnimation (isAnimating a) (f (animationProgress a)) (animationRef a)
                     (animationSpeed a))
        (pointer s).

Definition setAnimationRef (v : option jsnum) (s : AppState) : AppState :=
  let a := animation s in
  mkApp (inputs s) (viewport s) (graph s)
        (mkAnimation (isAnimating a) (animationProgress a) v (animationSpeed a))
        (pointer s).

Definition setIsAnimating (v : bool) (s : AppState) : AppState :=
  let a := animation s in
  mkApp (inputs s) (viewport s) (graph s)
        (mkAnimation v (animationProgress a) (animationRef a) (animationSpeed a))
        (pointer s).

Definition setAnimationSpeed (v : jsnum) (s : AppState) : AppState :=
  let a := animation s in
  mkApp (inputs s) (viewport s) (graph s)
        (mkAnimation (isAnimating a) (animationProgress a) (animationRef a) v)
        (pointer s).

Definition setHighlighted (v : bool) (s : AppState) : AppState :=
  let p := pointer s in
  mkApp (inputs s) (viewport s) (graph s) (animation s)
        (mkPointer v (highlightPoint p) (isDragging p) (lastMousePos p)).

Definition setHighlightPoint (v : Highlight) (s : AppState) : AppState :=
  let p := pointer s in
  mkApp (inputs s) (viewport s) (graph s) (animation s)
        (mkPointer (highlighted p) v (isDragging p) (lastMousePos p)).

(** [isDragging] and [lastMousePos] are [useRef] cells: a handler reads
    their current value, whatever render created it. *)
Definition setDragging (v : bool) (s : AppState) : AppState :=
  let p := pointer s in
  mkApp (inputs s) (viewport s) (graph s) (animation s)
        (mkPointer (highlighted p) (highlightPoint p) v (lastMousePos p)).

Definition setLastMousePos (v : Point) (s : AppState) : AppState :=
  let p := pointer s in
  mkApp (inputs s) (viewport s) (graph s) (animation s)
        (mkPointer (highlighted p) (highlightPoint p) (isDragging p) v).

(** *** Handlers: state updates that may raise

    A handler reads the state of the render that created it (its closure)
    and queues updates; an update made before an exception is kept. *)

Definition action (A : Type) : Type := AppState -> AppState * outcome A.

Definition pure {A} (a : A) : action A := fun s => (s, Ret a).

Definition andThen {A B} (m : action A) (k : A -> action B) : action B :=
  fun s =>
    match m s with
    | (s', Ret a) => k a s'
    | (s', Throw e) => (s', Throw e)
    end.

Definition lift {A} (m : outcome A) : action A := fun s => (s, m).

Definition update (f : AppState -> AppState) : action unit :=
  fun s => (f s, Ret tt).

Definition catching (body : action unit) (handler : js_error -> action unit)
  : action unit :=
  fun s =>
    match body s with
    | (s', Ret u) => (s', Ret u)
    | (s', Throw e) => handler e s'
    end.

Notation "m >> k" := (andThen m (fun _ => k))
  (at level 62, right associativity).

Section WithEvaluator.

Variable evaluate : evaluator.

(** [safeEval(expr, x)]. *)
Definition safeEval (expr : string) (x : jsnum) : outcome jsnum :=
  try_catch (evaluate expr x) (fun _ => Ret NaN).

(** The default step [h = 0.0001]. *)
Definition default_h : jsnum := Fin (1 # 10000).

(** [numericalDerivative(func, x, h)]. *)
Definition numericalDerivative (func : string) (x h : jsnum) : outcome jsnum :=
  a <- safeEval func (x + h) ;;
  b <- safeEval func (x - h) ;;
  Ret ((a - b) / (of_Z 2 * h)).

(** The test [!isNaN(v) && isFinite(v) && Math.abs(v) < 100]. *)
Definition displayable (v : jsnum) : bool :=
  negb (isNaN v) && isFinite v && jlt (Math_abs v) (of_Z 100).

(** [calculatePoints(func, range, numPoints)]. *)
Definition calculatePoints (func : string) (range : jsnum * jsnum)
  (numPoints : nat) : outcome (list Point) :=
  let step := (snd range - fst range) / of_nat numPoints in
  for_each (upto numPoints)
    (fun i result =>
       let x := fst range + of_nat i * step in
       y <- safeEval func x ;;
       if displayable y then Ret (result ++ [mkPoint x y]) else Ret result)
    [].

Definition default_numPoints : nat := 500.

(** [getEffectiveViewRange()]. *)
Definition getEffectiveViewRange (s : AppState) : jsnum * jsnum :=
  let range := viewRange (inputs s) in
  let rangeWidth := snd range - fst range in
  let zoomedWidth := rangeWidth / zoomLevel (viewport s) in
  let centerX := (fst range + snd range) / of_Z 2 + x (panOffset (viewport s)) in
  (centerX - zoomedWidth / of_Z 2, centerX + zoomedWidth / of_Z 2).

Definition padding : jsnum := of_Z 40.

(** [mapToSVG(point, range)]; [point] is [None] when the caller passes
    [undefined], whose property [x] cannot be read. *)
Definition mapToSVG (s : AppState) (point : option Point) (range : jsnum * jsnum)
  : outcome Point :=
  let graphWidth := svgWidth (viewport s) - of_Z 2 * padding in
  let graphHeight := svgHeight (viewport s) - of_Z 2 * padding in
  let xScale := graphWidth / (snd range - fst range) in
  let yScale := (graphHeight / of_Z 20) * zoomLevel (viewport s) in
  match point with
  | None => Throw (TypeError "Cannot read properties of undefined (reading 'x')")
  | Some p =>
      let svgX := padding + (x p - fst range) * xScale in
      let svgY := svgHeight (viewport s) / of_Z 2 - y p * yScale
                  + y (panOffset (viewport s)) in
      Ret (mkPoint svgX svgY)
  end.

(** An SVG path: ["M x y"] followed by [" L x y"] segments; the empty list
    is the empty string. *)
Inductive segment : Type :=
| MoveTo (p : Point)
| LineTo (p : Point).

(** The loop [for (let i = start; i <= endIndex; i++)] of the animated
    branch of [createPath].  [rest] holds [points[i]], [points[i+1]], ...;
    reading past the last element yields [undefined]. *)
Fixpoint lineTo_upto (s : AppState) (range : jsnum * jsnum) (endIndex : jsnum)
  (i : nat) (rest : list Point) (path : list segment) : outcome (list segment) :=
  if jle (of_nat i) endIndex then
    match rest with
    | [] => p <- mapToSVG s None range ;; Ret (path ++ [LineTo p])
    | pt :: rest' =>
        p <- mapToSVG s (Some pt) range ;;
        lineTo_upto s range endIndex (S i) rest' (path ++ [LineTo p])
    end
  else Ret path.

(** The loop [for (let i = 1; i < points.length; i++)] of the other
    branch. *)
Definition lineTo_all (s : AppState) (range : jsnum * jsnum)
  (rest : list Point) (path : list segment) : outcome (list segment) :=
  for_each rest
    (fun pt path => p <- mapToSVG s (Some pt) range ;; Ret (path ++ [LineTo p]))
    path.

(** [createPath(points, range, animated)]. *)
Definition createPath (s : AppState) (pts : list Point) (range : jsnum * jsnum)
  (animated : bool) : outcome (list segment) :=
  match pts with
  | [] => Ret []
  | p0 :: rest =>
      if animated then
        let endIndex :=
          Math_floor (of_nat (List.length pts) * animationProgress (animation s)) in
        if jle endIndex (of_Z 0) then Ret []
        else
          m <- mapToSVG s (Some p0) range ;;
          lineTo_upto s range endIndex 1 rest [MoveTo m]
      else
        m <- mapToSVG s (Some p0) range ;;
        lineTo_all s range rest [MoveTo m]
  end.

(** The points a path goes through, in order. *)
Definition vertices (path : list segment) : list Point :=
  map (fun sg => match sg with MoveTo p | LineTo p => p end) path.

(** [animate(timestamp)], the frame callback.  [c] is the render whose
    closure the callback captured ([animationSpeed] is read from it);
    [animationRef.current] is [None] for [null] and [undefined]. *)
Definition nextProgress (speed elapsed prev : jsnum) : jsnum :=
  let newProgress := prev + elapsed / (of_Z 5000 / speed) in
  if jgt newProgress (of_Z 1) then of_Z 0 else newProgress.

Definition ref_or (timestamp : jsnum) (current : option jsnum) : jsnum :=
  match current with
  | Some t => if truthy t then t else timestamp
  | None => timestamp
  end.

Definition animate (c : AppState) (timestamp : jsnum) : action unit :=
  fun s =>
    let last := ref_or timestamp (animationRef (animation s)) in
    let elapsed := timestamp - last in
    (update (setAnimationRef (Some last)) >>
     update (setAnimationProgress
               (nextProgress (animationSpeed (animation c)) elapsed)) >>
     update (setAnimationRef (Some timestamp))) s.

(** [customFunction.trim()] is the empty string: every character of the
    text is white space or a line terminator of ECMAScript.  A text is the
    sequence of the bytes of its UTF-8 encoding, so a character is one, two
    or three bytes:
    U+0009 to U+000D and U+0020;
    U+00A0 (C2 A0);
    U+1680 (E1 9A 80);
    U+2000 to U+200A, U+2028, U+2029 and U+202F (E2 80 80 to 8A, A8, A9, AF);
    U+205F (E2 81 9F); U+3000 (E3 80 80); U+FEFF (EF BB BF). *)
Definition is_space (ch : ascii) : bool :=
  let n := nat_of_ascii ch in
  (Nat.eqb n 32 || (Nat.leb 9 n && Nat.leb n 13))%bool.

Definition is_space2 (c1 c2 : ascii) : bool :=
  (Nat.eqb (nat_of_ascii c1) 194 && Nat.eqb (nat_of_ascii c2) 160)%bool.

Definition is_space3 (c1 c2 c3 : ascii) : bool :=
  let n1 := nat_of_ascii c1 in
  let n2 := nat_of_ascii c2 in
  let n3 := nat_of_ascii c3 in
  ((Nat.eqb n1 225 && Nat.eqb n2 154 && Nat.eqb n3 128)
   || (Nat.eqb n1 226 && Nat.eqb n2 128
       && ((Nat.leb 128 n3 && Nat.leb n3 138)
           || Nat.eqb n3 168 || Nat.eqb n3 169 || Nat.eqb n3 175))
   || (Nat.eqb n1 226 && Nat.eqb n2 129 && Nat.eqb n3 159)
   || (Nat.eqb n1 227 && Nat.eqb n2 128 && Nat.eqb n3 128)
   || (Nat.eqb n1 239 && Nat.eqb n2 187 && Nat.eqb n3 191))%bool.

Fixpoint blank (s : string) : bool :=
  match s with
  | EmptyString => true
  | String c1 rest1 =>
      if is_space c1 then blank rest1
      else
        match rest1 with
        | EmptyString => false
        | String c2 rest2 =>
            if is_space2 c1 c2 then blank rest2
            else
              match rest2 with
              | EmptyString => false
              | String c3 rest3 =>
                  if is_space3 c1 c2 c3 then blank rest3 else false
              end
        end
  end.

(** [predefinedFunctions[t].find((f) => f.name === value)]. *)
Definition findByName (t : tab) (value : string) : option PredefinedFunction :=
  find (fun f => String.eqb (name f) value) (predefinedFunctions t).

(** The derivative curve of [calculateDerivative]: one point per retained
    function point, kept when the central difference is displayable. *)
Definition derivativeCurve (func : string) (funcPoints : list Point)
  : outcome (list Point) :=
  for_each funcPoints
    (fun point derPoints =>
       dy <- numericalDerivative func (x point) default_h ;;
       if displayable dy then Ret (derPoints ++ [mkPoint (x point) dy])
       else Ret derPoints)
    [].

(** [calculateDerivative()], called from the render [c]. *)
Definition recompute (c : AppState) : action unit :=
  let func := customFunction (inputs c) in
  andThen (lift (calculatePoints func (getEffectiveViewRange c) default_numPoints))
    (fun funcPoints =>
       update (setPoints funcPoints) >>
       andThen (lift (derivativeCurve func funcPoints))
         (fun derPoints =>
            update (setDerivativePoints derPoints) >>
            update (setErrorMessage ""))).

Definition calculateDerivative (c : AppState) : action unit :=
  let func := customFunction (inputs c) in
  catching
    (if tab_eqb (activeTab (inputs c)) custom then
       if blank func then
         update (setDerivedFunction (DerivedExpr "")) >>
         update (setPoints []) >>
         update (setDerivativePoints [])
       else
         andThen (lift (numericalDerivative func (of_Z 0) default_h))
           (fun derValue =>
              update (setDerivedFunction (DerivedNumeric derValue)) >>
              recompute c)
     else
       update (setDerivedFunction
                 (DerivedExpr
                    match findByName (activeTab (inputs c)) func with
                    | Some f => derivative f
                    | None => ""
                    end)) >>
       recompute c)
    (fun e =>
       update (setErrorMessage ("Error calculating derivative: " ++ message e)) >>
       update (setPoints []) >>
       update (setDerivativePoints [])).

(** [handleTabChange(value)]. *)
Definition handleTabChange (c : AppState) (value : tab) : action unit :=
  update (setActiveTab value) >>
  (if negb (tab_eqb value custom) then
     match predefinedFunctions value with
     | defaultFunc :: _ =>
         update (setCustomFunction (name defaultFunc)) >>
         update (setDerivedFunction (DerivedExpr (derivative defaultFunc))) >>
         update (setErrorMessage "")
     | [] =>
         lift (Throw (TypeError
                 "Cannot read properties of undefined (reading 'name')"))
     end
   else
     update (setCustomFunction "") >>
     update (setDerivedFunction (DerivedExpr ""))) >>
  calculateDerivative c.

(** [handleFunctionChange(value)]. *)
Definition handleFunctionChange (c : AppState) (value : string) : action unit :=
  match findByName (activeTab (inputs c)) value with
  | Some selectedFunc =>
      update (setCustomFunction (name selectedFunc)) >>
      update (setDerivedFunction (DerivedExpr (derivative selectedFunc))) >>
      update (setErrorMessage "")
  | None => pure tt
  end.

(** [handleCustomFunctionChange(e)] with [text = e.target.value]. *)
Definition handleCustomFunctionChange (text : string) : action unit :=
  update (setCustomFunction text) >>
  catching
    (andThen (lift (safeEval text (of_Z 1)))
       (fun xTest =>
          if (isNaN xTest || negb (isFinite xTest))%bool
          then lift (Throw (Error "Invalid function"))
          else update (setErrorMessage "")))
    (fun _ => update (setErrorMessage "Warning: Function may be invalid")).

(** [handleWheel(e)] with [deltaY = e.deltaY]. *)
Definition handleWheel (c : AppState) (deltaY : jsnum) : action unit :=
  let delta := if jgt deltaY (of_Z 0) then Fin (- (1 # 10)) else Fin (1 # 10) in
  let newZoom :=
    Math_max (Fin (1 # 2)) (Math_min (of_Z 5) (zoomLevel (viewport c) + delta)) in
  update (setZoomLevel newZoom).

(** [handleZoomIn()], [handleZoomOut()], [handleResetView()]. *)
Definition handleZoomIn : action unit :=
  fun s =>
    update (setZoomLevel
              (Math_min (of_Z 5) (zoomLevel (viewport s) + Fin (1 # 4)))) s.

Definition handleZoomOut : action unit :=
  fun s =>
    update (setZoomLevel
              (Math_max (Fin (1 # 2)) (zoomLevel (viewport s) - Fin (1 # 4)))) s.

Definition handleResetView : action unit :=
  update (setZoomLevel (of_Z 1)) >>
  update (setPanOffset (mkPoint (of_Z 0) (of_Z 0))).

(** [handleRangeChange(values)]. *)
Definition handleRangeChange (values : jsnum * jsnum) : action unit :=
  update (setViewRange (fst values, snd values)).

(** The pointer inverse of [handleMouseMove]: SVG abscissa to
    mathematical abscissa. *)
Definition pointerToX (c : AppState) (mouseX : jsnum) : jsnum :=
  let graphWidth := svgWidth (viewport c) - of_Z 2 * padding in
  let range := getEffectiveViewRange c in
  let xScale := graphWidth / (snd range - fst range) in
  fst range + (mouseX - padding) / xScale.

(** [handleMouseMove(e)] with [mouseX = e.clientX - svgRect.left]. *)
Definition handleMouseMove (c : AppState) (mouseX : jsnum) : action unit :=
  fun s =>
    match points (graph c), isDragging (pointer s) with
    | [], _ | _, true => pure tt s
    | _, false =>
        let range := getEffectiveViewRange c in
        let x := pointerToX c mouseX in
        if (jge x (fst range) && jle x (snd range))%bool then
          andThen (lift (safeEval (customFunction (inputs c)) x))
            (fun y =>
               andThen (lift (numericalDerivative (customFunction (inputs c))
                                                  x default_h))
                 (fun dy =>
                    update (setHighlighted true) >>
                    update (setHighlightPoint (mkHighlight x y dy)))) s
        else pure tt s
    end.

(** [handleMouseLeave()]. *)
Definition handleMouseLeave : action unit := update (setHighlighted false).

(** [handleMouseDown(e)] with [button = e.button] and the pointer position
    [(e.clientX, e.clientY)]. *)
Definition handleMouseDown (button : Z) (clientX clientY : jsnum) : action unit :=
  if (button =? 0)%Z then
    update (setDragging true) >>
    update (setLastMousePos (mkPoint clientX clientY))
  else pure tt.

(** [handleMouseUp()]. *)
Definition handleMouseUp : action unit := update (setDragging false).

(** [handlePan(e)] with the pointer position [(e.clientX, e.clientY)].  The
    view range and the width are read from the closure [c]; the pan offset
    is updated from its current value. *)
Definition handlePan (c : AppState) (clientX clientY : jsnum) : action unit :=
  fun s =>
    if negb (isDragging (pointer s)) then pure tt s
    else
      let dx := clientX - x (lastMousePos (pointer s)) in
      let dy := clientY - y (lastMousePos (pointer s)) in
      let range := getEffectiveViewRange c in
      let xScale := (svgWidth (viewport c) - of_Z 80) / (snd range - fst range) in
      let yScale := ((svgHeight (viewport c) - of_Z 80) / of_Z 20)
                    * zoomLevel (viewport c) in
      (update (fun s' =>
                 let prev := panOffset (viewport s') in
                 setPanOffset (mkPoint (x prev - dx / xScale) (y prev + dy)) s') >>
       update (setLastMousePos (mkPoint clientX clientY))) s.

(** [handleResize()] with the size [(clientWidth, clientHeight)] of the
    mounted graph element. *)
Definition handleResize (clientWidth clientHeight : jsnum) : action unit :=
  update (setSvgSize clientWidth clientHeight).

(** The play button, [() => setIsAnimating(!isAnimating)], and the speed
    slider, [(value) => setAnimationSpeed(value[0])]. *)
Definition toggleAnimation (c : AppState) : action unit :=
  update (setIsAnimating (negb (isAnimating (animation c)))).

Definition changeSpeed (value : jsnum) : action unit :=
  update (setAnimationSpeed value).


(** *** Events and the recomputation effect *)

(** The events of the component: every handler it registers, but for the
    frame callback [animate].  The listeners of the document, [handleMouseUp]
    and [handlePan], are registered once, by the effect of the first render:
    [handlePan] keeps the closure of that render, whose state is
    [initial]. *)
Inductive event : Type :=
| TabChange (value : tab)
| FunctionChange (value : string)
| CustomFunctionInput (text : string)
| RangeChange (values : jsnum * jsnum)
| Wheel (deltaY : jsnum)
| ZoomIn
| ZoomOut
| ResetView
| Calculate
| MouseMove (mouseX : jsnum)
| MouseLeave
| MouseDown (button : Z) (clientX clientY : jsnum)
| MouseUp
| Pan (clientX clientY : jsnum)
| Resize (clientWidth clientHeight : jsnum)
| ToggleAnimation
| SpeedChange (value : jsnum).

Definition handle (e : event) (c : AppState) : action unit :=
  match e with
  | TabChange value => handleTabChange c value
  | FunctionChange value => handleFunctionChange c value
  | CustomFunctionInput text => handleCustomFunctionChange text
  | RangeChange values => handleRangeChange values
  | Wheel deltaY => handleWheel c deltaY
  | ZoomIn => handleZoomIn
  | ZoomOut => handleZoomOut
  | ResetView => handleResetView
  | Calculate => calculateDerivative c
  | MouseMove mouseX => handleMouseMove c mouseX
  | MouseLeave => handleMouseLeave
  | MouseDown button clientX clientY => handleMouseDown button clientX clientY
  | MouseUp => handleMouseUp
  | Pan clientX clientY => handlePan initial clientX clientY
  | Resize clientWidth clientHeight => handleResize clientWidth clientHeight
  | ToggleAnimation => toggleAnimation c
  | SpeedChange value => changeSpeed value
  end.

(** [Object.is] on numbers. *)
Definition object_is (a b : jsnum) : bool :=
  match a, b with
  | NaN, NaN => true
  | _, _ => jeqb a b
  end.

(** Whether a dependency of the effect
    [[customFunction, viewRange, activeTab, zoomLevel, panOffset]] changed:
    strings, tabs and numbers by value, the array and the object by
    identity (a handler that sets them always stores a fresh one;
    [handlePan] sets the pan offset when a drag is under way). *)
Definition depsChanged (e : event) (before after : AppState) : bool :=
  (negb (String.eqb (customFunction (inputs before)) (customFunction (inputs after)))
   || negb (tab_eqb (activeTab (inputs before)) (activeTab (inputs after)))
   || negb (object_is (zoomLevel (viewport before)) (zoomLevel (viewport after)))
   || match e with
      | RangeChange _ | ResetView => true
      | Pan _ _ => isDragging (pointer before)
      | _ => false
      end)%bool.

(** The effect on [[isAnimating]]: when the animation has just been
    switched on, [animationRef.current = null] (and the first frame is
    requested). *)
Definition startStop (before after : AppState) : AppState :=
  if (negb (Bool.eqb (isAnimating (animation before)) (isAnimating (animation after)))
      && isAnimating (animation after))%bool
  then setAnimationRef None after
  else after.

(** One event: the handler runs, the component renders again (state [s1]),
    and the effects whose dependencies changed run with the closure of that
    render: the start of the animation, then the recomputation of the
    curves. *)
Definition dispatch (e : event) (s : AppState) : AppState :=
  let s1 := fst (handle e s s) in
  let s2 := startStop s s1 in
  if depsChanged e s s1 then fst (calculateDerivative s1 s2) else s2.

End WithEvaluator.

End Page.

(* ================================================================== *)
(** ** [src/components/derivative-graph.tsx]: the [DerivativeGraph]
    component *)

Module DerivativeGraph.

Open Scope js_scope.

(** One row of the chart data: [{ x, y, dy, tangent }]. *)
Record Sample : Type := mkSample {
  x : jsnum;
  y : jsnum;
  dy : jsnum;
  tangent : jsnum
}.

(** The [useState] cells [data], [loading], [error]. *)
Record GraphState : Type := mkState {
  data : list Sample;
  loading : bool;
  error : string
}.

Definition initial : GraphState := mkState [] true "".

(** The props read by [generateData]. *)
Record Props : Type := mkProps {
  func : string;
  derivative : string;
  domain : jsnum * jsnum;
  tangentPoint : jsnum
}.

Definition points : nat := 1000.

(** A string is truthy when it is not empty. *)
Definition nonempty (s : string) : bool :=
  match s with EmptyString => false | _ => true end.

(** [!dy] and [dy || 0] for [dy] either [null] or a number. *)
Definition falsy (dy : option jsnum) : bool :=
  match dy with
  | None => true
  | Some v => negb (truthy v)
  end.

Definition orZero (dy : option jsnum) : jsnum :=
  match dy with
  | Some v => if truthy v then v else of_Z 0
  | None => of_Z 0
  end.

(** [isFinite(dy)] on [null] or a number ([null] converts to [0]). *)
Definition isFiniteOpt (dy : option jsnum) : bool :=
  match dy with
  | None => true
  | Some v => isFinite v
  end.

Section WithEvaluator.

Variable evaluate : evaluator.

(** The body of the inner [try] for the grid point [x], before the
    [catch]: the sample to push, if any. *)
Definition samplePoint (p : Props) (tangentSlope tangentIntercept x : jsnum)
  : outcome (option Sample) :=
  y <- evaluate (func p) x ;;
  dy <- (if nonempty (derivative p)
         then v <- evaluate (derivative p) x ;; Ret (Some v)
         else Ret None) ;;
  let tangent := tangentSlope * x + tangentIntercept in
  if (isFinite y && (falsy dy || isFiniteOpt dy))%bool
  then Ret (Some (mkSample x y (orZero dy) tangent))
  else Ret None.

(** The abscissa of the grid point [i]. *)
Definition gridX (p : Props) (i : nat) : jsnum :=
  let step := (snd (domain p) - fst (domain p)) / of_nat points in
  fst (domain p) + of_nat i * step.

(** One iteration of the loop, with its [try]/[catch]: a point whose
    evaluation fails is skipped. *)
Definition pushPoint (p : Props) (tangentSlope tangentIntercept : jsnum)
  (i : nat) (newData : list Sample) : outcome (list Sample) :=
  try_catch
    (r <- samplePoint p tangentSlope tangentIntercept (gridX p i) ;;
     match r with
     | Some s => Ret (newData ++ [s])
     | None => Ret newData
     end)
    (fun _ => Ret newData).

(** The slope and the intercept of the tangent at [tangentPoint]. *)
Definition tangentLine (p : Props) : outcome (jsnum * jsnum) :=
  tangentSlope <- evaluate (derivative p) (tangentPoint p) ;;
  fx0 <- evaluate (func p) (tangentPoint p) ;;
  Ret (tangentSlope, fx0 - tangentSlope * tangentPoint p).

(** The new contents of [data], computed inside the outer [try]. *)
Definition newData (p : Props) : outcome (list Sample) :=
  line <- tangentLine p ;;
  for_each (upto points) (pushPoint p (fst line) (snd line)) [].

(** [generateData()]. *)
Definition generateData (p : Props) (s : GraphState) : GraphState :=
  if negb (nonempty (func p)) then mkState [] false (error s)
  else
    match newData p with
    | Ret rows => mkState rows false ""
    | Throw _ => mkState (data s) false "Error generating graph data"
    end.

End WithEvaluator.

End DerivativeGraph.

(* ================================================================== *)
(** ** [src/unnamed/part_000]: the [CalcVisualizer] component, which
    renders [DerivativeGraph] *)

Module Visualizer.

Open Scope js_scope.

Inductive Rule : Type := trig | product | quotient | chain.

Definition Rule_eqb (a b : Rule) : bool :=
  match a, b with
  | trig, trig | product, product | quotient, quotient | chain, chain => true
  | _, _ => false
  end.

Record DerivativeExample : Type := mkExample {
  name : string;
  f : string;
  df : string;
  explanation : string;
  defaultDomain : option (jsnum * jsnum)
}.

(** [Math.PI]: the double nearest to pi, which is this rational. *)
Definition Math_PI : jsnum := Fin (884279719003555 # 281474976710656).

Definition twoPi : jsnum * jsnum :=
  (of_Z (-2) * Math_PI, of_Z 2 * Math_PI).

(** The table [examples]. *)
Definition examples (r : Rule) : list DerivativeExample :=
  match r with
  | trig =>
      [ mkExample "Sine" "sin(x)" "cos(x)"
          "The derivative of sin(x) is cos(x)" (Some twoPi);
        mkExample "Cosine" "cos(x)" "-sin(x)"
          "The derivative of cos(x) is -sin(x)" (Some twoPi);
        mkExample "Tangent" "tan(x)" "sec(x)^2"
          "The derivative of tan(x) is sec²(x) or 1/cos²(x)"
          (Some (Fin (- (3 # 2)), Fin (3 # 2))) ]
  | product =>
      [ mkExample "Product Rule" "x * sin(x)" "x * cos(x) + sin(x)"
          "If f(x) = g(x) · h(x), then f'(x) = g'(x) · h(x) + g(x) · h'(x)" None;
        mkExample "Polynomial × Trig" "x^2 * cos(x)"
          "2 * x * cos(x) - x^2 * sin(x)"
          "Using the product rule: (x²)' · cos(x) + x² · (cos(x))'" None ]
  | quotient =>
      [ mkExample "Quotient Rule" "sin(x) / x" "(x * cos(x) - sin(x)) / x^2"
          "If f(x) = g(x)/h(x), then f'(x) = [g'(x)·h(x) - g(x)·h'(x)]/[h(x)]²"
          None;
        mkExample "Rational Function" "x / (x^2 + 1)"
          "(x^2 + 1 - x * 2 * x) / (x^2 + 1)^2"
          "Using the quotient rule: [(x²+1)·1 - x·2x]/[(x²+1)²]" None ]
  | chain =>
      [ mkExample "Chain Rule" "sin(x^2)" "2 * x * cos(x^2)"
          "If f(x) = g(h(x)), then f'(x) = g'(h(x)) · h'(x)" None;
        mkExample "Nested Functions" "sqrt(1 + x^2)" "x / sqrt(1 + x^2)"
          "Using the chain rule: (1/2)(1+x²)^(-1/2) · 2x" None ]
  end%string.

(** The [useState] cells. *)
Record State : Type := mkState {
  activeTab : Rule;
  customFunction : string;
  customDerivative : string;
  selectedExample : nat;
  error : string;
  domain : jsnum * jsnum;
  showDerivative : bool;
  showTangentLine : bool;
  tangentPoint : jsnum
}.

Definition initial : State :=
  mkState trig "" "" 0 "" (of_Z (-10), of_Z 10) true false (of_Z 0).

(** [a || b] for [a] a number or [undefined], and for two numbers. *)
Definition orElse (a : option jsnum) (b : jsnum) : jsnum :=
  match a with
  | Some v => if truthy v then v else b
  | None => b
  end.

(** A number or [undefined] as an operand of [+]. *)
Definition toNumber (a : option jsnum) : jsnum :=
  match a with Some v => v | None => NaN end.

(** [ex.defaultDomain || [-10, 10]]. *)
Definition domainOrDefault (d : option (jsnum * jsnum)) : jsnum * jsnum :=
  match d with Some r => r | None => (of_Z (-10), of_Z 10) end.

(** The [useEffect] on [activeTab]: the first example of the tab, its
    domain, and the middle of that domain as tangent point. *)
Definition onActiveTab (s : State) : outcome State :=
  match examples (activeTab s) with
  | first :: _ =>
      let defaultDomain := domainOrDefault (defaultDomain first) in
      Ret (mkState (activeTab s) "" "" 0 "" defaultDomain
                   (showDerivative s) (showTangentLine s)
                   ((fst defaultDomain + snd defaultDomain) / of_Z 2))
  | [] =>
      Throw (TypeError
               "Cannot read properties of undefined (reading 'defaultDomain')")
  end.

(** [onValueChange] of the tabs: [setActiveTab(value)], then the effect
    when the tab changed. *)
Definition changeTab (value : Rule) (s : State) : outcome State :=
  if Rule_eqb value (activeTab s) then Ret s
  else
    onActiveTab (mkState value (customFunction s) (customDerivative s)
                         (selectedExample s) (error s) (domain s)
                         (showDerivative s) (showTangentLine s)
                         (tangentPoint s)).

(** [onClick] of the button of the example [ex] at index [idx].  The
    tangent point is
    [(ex.defaultDomain?.[0] || -10 + ex.defaultDomain?.[1] || 10) / 2],
    in which [+] binds tighter than [||]. *)
Definition selectExample (idx : nat) (ex : DerivativeExample) (s : State) : State :=
  let d0 := option_map fst (defaultDomain ex) in
  let d1 := option_map snd (defaultDomain ex) in
  let first := orElse d0 (of_Z (-10) + toNumber d1) in
  let chosen := if truthy first then first else of_Z 10 in
  mkState (activeTab s) "" "" idx "" (domainOrDefault (defaultDomain ex))
          (showDerivative s) (showTangentLine s)
          (chosen / of_Z 2).

(** [handleDomainChange(value)] and [handleTangentPointChange(value)]. *)
Definition handleDomainChange (value : jsnum * jsnum) (s : State) : State :=
  mkState (activeTab s) (customFunction s) (customDerivative s)
          (selectedExample s) (error s) (fst value, snd value)
          (showDerivative s) (showTangentLine s) (tangentPoint s).

Definition handleTangentPointChange (value : jsnum) (s : State) : State :=
  mkState (activeTab s) (customFunction s) (customDerivative s)
          (selectedExample s) (error s) (domain s)
          (showDerivative s) (showTangentLine s) value.

(** [currentExamples[Math.min(selectedExample, currentExamples.length - 1)]]. *)
Definition currentExample (s : State) : option DerivativeExample :=
  let currentExamples := examples (activeTab s) in
  nth_error currentExamples
            (Nat.min (selectedExample s) (List.length currentExamples - 1)).

(** The props handed to [DerivativeGraph]: [displayFunction],
    [displayDerivative], [domain], [tangentPoint]. *)
Definition graphProps (s : State) : outcome DerivativeGraph.Props :=
  match currentExample s with
  | Some ex =>
      let displayFunction :=
        if DerivativeGraph.nonempty (customFunction s)
        then customFunction s else f ex in
      let displayDerivative :=
        if DerivativeGraph.nonempty (customFunction s)
        then customDerivative s else df ex in
      Ret (DerivativeGraph.mkProps displayFunction displayDerivative
                                   (domain s) (tangentPoint s))
  | None => Throw (TypeError "Cannot read properties of undefined (reading 'f')")
  end.

End Visualizer.

(* ================================================================== *)
(** ** The view transform in double precision

    A JavaScript number is an IEEE-754 binary64 number, and so is a [float]
    of the kernel: same format, same rounding to nearest, ties to even.
    The zoom handlers and [getEffectiveViewRange] of [src/app/page.tsx],
    operation by operation as in the source, on these numbers. *)

Module Doubles.

Import PrimFloat.

Local Open Scope float_scope.

(** The literal [0.1]: the binary64 number nearest to one tenth. *)
Definition tenth : float := 0x1.999999999999ap-4.

(** [Math.max] and [Math.min] of two numbers (the sign of a zero aside). *)
Definition Math_max (a b : float) : float :=
  if (is_nan a || is_nan b)%bool then nan else if a <? b then b else a.

Definition Math_min (a b : float) : float :=
  if (is_nan a || is_nan b)%bool then nan else if b <? a then b else a.

(** [getEffectiveViewRange()] for the view range, the zoom level and the
    horizontal pan of the render. *)
Definition getEffectiveViewRange (viewRange : float * float)
  (zoomLevel panX : float) : float * float :=
  let rangeWidth := snd viewRange - fst viewRange in
  let zoomedWidth := rangeWidth / zoomLevel in
  let centerX := (fst viewRange + snd viewRange) / 2 + panX in
  (centerX - zoomedWidth / 2, centerX + zoomedWidth / 2).

(** The zoom level [handleWheel(e)] sets, from the zoom level of the
    render and [e.deltaY]. *)
Definition handleWheel (zoomLevel deltaY : float) : float :=
  let delta := if 0 <? deltaY then - tenth else tenth in
  Math_max 0.5 (Math_min 5 (zoomLevel + delta)).

(** The zoom level [handleZoomOut()] sets, from the previous one. *)
Definition handleZoomOut (prev : float) : float :=
  Math_max 0.5 (prev - 0.25).

(** The width [hi - lo] of a range. *)
Definition widthOf (range : float * float) : float :=
  snd range - fst range.

(** The bounds [0.5] and [5] the handlers clamp the zoom level to. *)
Definition minZoom : float := 0.5.
Definition maxZoom : float := 5.

(** The base domain [[-20, -19]], at the left end of the range slider. *)
Definition leftmost : float * float := (-20, -19).

(** Two zoom levels reached from the initial zoom 1: two clicks on the
    zoom-out button and one notch of the wheel upwards (0.6), and four
    notches of the wheel downwards (0.6000000000000001). *)
Definition zoomUp : float :=
  handleWheel (handleZoomOut (handleZoomOut 1)) (-100).

Definition zoomDown : float :=
  handleWheel (handleWheel (handleWheel (handleWheel 1 100) 100) 100) 100.

End Doubles.

(* ================================================================== *)
(** ** A small evaluator

    An instance of the evaluation capability, used to run the components
    on concrete inputs.  It covers the expressions of its table with the
    meaning mathjs gives them: number arithmetic, a conditional that
    evaluates only the branch it selects, and an error for a symbol that is
    not defined.  It is not mathjs: on a text outside its table it raises,
    whatever mathjs makes of that text, so a concrete statement below runs
    it on the texts of the table, or does not depend on its answer (the
    zoom level, the view range and the animation cells after an event on
    the initial text [sin(x)]). *)

Module Toy.

Open Scope js_scope.

Inductive expr : Type :=
| Var                                   (* x *)
| Num (q : Q)
| Sym (name : string)                   (* a symbol other than x *)
| Add (a b : expr)
| Sub (a b : expr)
| Mul (a b : expr)
| Div (a b : expr)
| IfLt (a b : expr) (t e : expr).       (* a < b ? t : e *)

Fixpoint eval (e : expr) (x : jsnum) : outcome jsnum :=
  match e with
  | Var => Ret x
  | Num q => Ret (Fin q)
  | Sym name => Throw (Error ("Undefined symbol " ++ name))
  | Add a b => u <- eval a x ;; v <- eval b x ;; Ret (u + v)
  | Sub a b => u <- eval a x ;; v <- eval b x ;; Ret (u - v)
  | Mul a b => u <- eval a x ;; v <- eval b x ;; Ret (u * v)
  | Div a b => u <- eval a x ;; v <- eval b x ;; Ret (u / v)
  | IfLt a b t e =>
      u <- eval a x ;; v <- eval b x ;;
      if jlt u v then eval t x else eval e x
  end.

Definition table : list (string * expr) :=
  [ ("x", Var);
    ("1/x", Div (Num 1) Var);
    ("0/x", Div (Num 0) Var);
    ("x * x", Mul Var Var);
    ("2 * x", Mul (Num 2) Var);
    ("-1 / x ^ 2", Div (Num (-1)) (Mul Var Var));
    ("x < 0 ? foo : 1", IfLt Var (Num 0) (Sym "foo") (Num 1));
    ("foo", Sym "foo") ]%string.

Fixpoint lookup (text : string) (t : list (string * expr)) : option expr :=
  match t with
  | [] => None
  | (k, e) :: rest => if String.eqb k text then Some e else lookup text rest
  end.

Definition evaluate : evaluator :=
  fun text x =>
    match lookup text table with
    | Some e => eval e x
    | None => Throw (Error "Unexpected expression")
    end.

End Toy.

(* ================================================================== *)
(** ** Vocabulary of the statements *)

(** The evaluation of [expr] at [x] is invalid: it raises, or it yields
    [NaN].  These are the cases in which [safeEval] answers [NaN]. *)
Definition invalid_at (evaluate : evaluator) (expr : string) (x : jsnum) : Prop :=
  (exists e, evaluate expr x = Throw e) \/ evaluate expr x = Ret NaN.

(** The rows grid point [i] contributes to the chart data. *)
Definition rowAt (evaluate : evaluator) (p : DerivativeGraph.Props)
  (line : jsnum * jsnum) (i : nat) : list DerivativeGraph.Sample :=
  match DerivativeGraph.samplePoint evaluate p (fst line) (snd line)
          (DerivativeGraph.gridX p i) with
  | Ret (Some s) => [s]
  | _ => []
  end.

(** The points grid point [i] contributes to the curve of
    [calculatePoints]. *)
Definition pointAt (evaluate : evaluator) (func : string)
  (range : jsnum * jsnum) (numPoints i : nat) : list Page.Point :=
  let step := jdiv (jsub (snd range) (fst range)) (of_nat numPoints) in
  let x := jadd (fst range) (jmul (of_nat i) step) in
  match Page.safeEval evaluate func x with
  | Ret y => if Page.displayable y then [Page.mkPoint x y] else []
  | Throw _ => []
  end.

(** The domain of the chart spans 0. *)
Definition spansZero (p : DerivativeGraph.Props) : bool :=
  (jlt (fst (DerivativeGraph.domain p)) (of_Z 0)
   && jlt (of_Z 0) (snd (DerivativeGraph.domain p)))%bool.

(** No grid point of the chart is nearer to 0 than grid point [i]. *)
Definition nearestToZero (p : DerivativeGraph.Props) (i : nat) : bool :=
  forallb (fun j => jle (Math_abs (DerivativeGraph.gridX p i))
                        (Math_abs (DerivativeGraph.gridX p j)))
          (upto DerivativeGraph.points).

(** The value of a computation that returned, [d] otherwise. *)
Definition valueOr {A} (d : A) (m : outcome A) : A :=
  match m with Ret a => a | Throw _ => d end.

(** [mapToSVG] on a point that is present. *)
Definition toSVG (s : Page.AppState) (range : jsnum * jsnum) (pt : Page.Point)
  : Page.Point :=
  let xScale := jdiv (jsub (Page.svgWidth (Page.viewport s))
                           (jmul (of_Z 2) Page.padding))
                     (jsub (snd range) (fst range)) in
  let yScale := jmul (jdiv (jsub (Page.svgHeight (Page.viewport s))
                                 (jmul (of_Z 2) Page.padding)) (of_Z 20))
                     (Page.zoomLevel (Page.viewport s)) in
  Page.mkPoint
    (jadd Page.padding (jmul (jsub (Page.x pt) (fst range)) xScale))
    (jadd (jsub (jdiv (Page.svgHeight (Page.viewport s)) (of_Z 2))
                (jmul (Page.y pt) yScale))
          (Page.y (Page.panOffset (Page.viewport s)))).

(** The elapsed time [animate] computes for the frame at [timestamp]. *)
Definition elapsedAt (timestamp : jsnum) (s : Page.AppState) : jsnum :=
  jsub timestamp
       (Page.ref_or timestamp (Page.animationRef (Page.animation s))).

(** The width [hi - lo] of a range. *)
Definition widthOf (range : jsnum * jsnum) : jsnum :=
  jsub (snd range) (fst range).

(** The centre and the zoomed width of the effective range, for a base
    domain [[a, b]], a horizontal pan [d] and a zoom [z]. *)
Definition centerQ (a b d : Q) : Q := (a + b) / inject_Z 2 + d.
Definition zoomedWidthQ (a b z : Q) : Q := (b - a) / z.

(** The index [Math.floor(points.length * animationProgress)] of the
    animated path, for a finite progress [p]. *)
Definition endIndexZ (pts : list Page.Point) (p : Q) : Z :=
  Qfloor (inject_Z (Z.of_nat (List.length pts)) * p).

(** The message of the error raised by reading [x] of [undefined]. *)
Definition undefinedPoint : js_error :=
  TypeError "Cannot read properties of undefined (reading 'x')".

(** A handler leaves the animation cells untouched. *)
Definition keepsAnimation {A} (m : Page.action A) : Prop :=
  forall s, Page.animation (fst (m s)) = Page.animation s.

(** A handler leaves the part [proj] of the state untouched. *)
Definition preserves {A B} (proj : Page.AppState -> B) (m : Page.action A) : Prop :=
  forall s, proj (fst (m s)) = proj s.

(** The zoom level is a number of the interval [[0.5, 5]]. *)
Definition zoomInBounds (s : Page.AppState) : Prop :=
  exists z, Page.zoomLevel (Page.viewport s) = Fin z /\ (1 # 2 <= z <= 5)%Q.

(** The points of a curve are displayable. *)
Definition allDisplayable (pts : list Page.Point) : Prop :=
  forall pt, In pt pts -> Page.displayable (Page.y pt) = true.

(** The two stored curves are displayable, and the derivative curve has
    points only at abscissas of the function curve. *)
Definition curvesConsistent (s : Page.AppState) : Prop :=
  allDisplayable (Page.points (Page.graph s))
  /\ allDisplayable (Page.derivativePoints (Page.graph s))
  /\ (forall dp, In dp (Page.derivativePoints (Page.graph s)) ->
         exists fp, In fp (Page.points (Page.graph s))
                    /\ Page.x fp = Page.x dp).

(** A list of numbers, strictly ascending. *)
Definition ascending (xs : list jsnum) : Prop :=
  StronglySorted (fun a b => jlt a b = true) xs.


(** The abscissa of grid point [i] of [n] intervals over [[lo, hi]]. *)
Definition gridQ (lo hi : Q) (n i : nat) : Q :=
  lo + inject_Z (Z.of_nat i) * ((hi - lo) / inject_Z (Z.of_nat n)).

(** The points a function point contributes to the derivative curve. *)
Definition derivativeAt (evaluate : evaluator) (func : string)
  (point : Page.Point) : list Page.Point :=
  match Page.numericalDerivative evaluate func (Page.x point) Page.default_h with
  | Ret dy => if Page.displayable dy then [Page.mkPoint (Page.x point) dy] else []
  | Throw _ => []
  end.

(** The function and the range [calculateDerivative] samples, read from
    the render [c]. *)
Definition sampledCurve (evaluate : evaluator) (c : Page.AppState)
  : outcome (list Page.Point) :=
  Page.calculatePoints evaluate (Page.customFunction (Page.inputs c))
    (Page.getEffectiveViewRange c) Page.default_numPoints.

(** [calculateDerivative] returns early: the custom tab with a blank
    function. *)
Definition blankCustom (c : Page.AppState) : bool :=
  (Page.tab_eqb (Page.activeTab (Page.inputs c)) Page.custom
   && Page.blank (Page.customFunction (Page.inputs c)))%bool.

(** The graph [g] holds the curves sampled from the render [c]: the curve
    of its function over its effective range with the derivative curve, or
    no curve at all on the custom tab with a blank function. *)
Definition recomputedFrom (evaluate : evaluator) (c : Page.AppState)
  (g : Page.Graph) : Prop :=
  if blankCustom c
  then Page.points g = [] /\ Page.derivativePoints g = []
  else exists funcPoints derPoints,
         sampledCurve evaluate c = Ret funcPoints
         /\ Page.derivativeCurve evaluate
              (Page.customFunction (Page.inputs c)) funcPoints
            = Ret derPoints
         /\ Page.points g = funcPoints
         /\ Page.derivativePoints g = derPoints
         /\ Page.errorMessage g = EmptyString.

(** *** Concrete inputs *)

Module Demo.

Import Page.

(** A view [[-10, 10]] at zoom 1 in an 880 x 480 drawing area. *)
Definition view : AppState :=
  setSvgSize (of_Z 880) (of_Z 480) initial.

(** Half a cycle into the animation: two frames 2500 ms apart at speed 1. *)
Definition halfway : AppState :=
  fst (animate view (of_Z 3500) (fst (animate view (of_Z 1000) view))).

(** The end of a cycle: two frames 5000 ms apart at speed 1. *)
Definition cycleEnd : AppState :=
  fst (animate view (of_Z 6000) (fst (animate view (of_Z 1000) view))).

(** The custom tab, just selected: the text field is empty. *)
Definition customTab : AppState :=
  dispatch Toy.evaluate (TabChange custom) view.

(** The custom tab with the square function typed in and plotted. *)
Definition plotted : AppState :=
  dispatch Toy.evaluate (CustomFunctionInput "x * x") customTab.

(** The left button pressed at the pixel [(100, 100)] of the default
    view. *)
Definition pressed : AppState :=
  fst (handleMouseDown 0 (of_Z 100) (of_Z 100) view).

Definition twoPoints : list Point :=
  [ mkPoint (of_Z (-1)) (of_Z 1); mkPoint (of_Z 1) (of_Z 1) ].

(** Chart inputs. *)
Definition square : DerivativeGraph.Props :=
  DerivativeGraph.mkProps "x * x" "2 * x" (of_Z (-1), of_Z 1) (of_Z 0).

Definition raising : DerivativeGraph.Props :=
  DerivativeGraph.mkProps "x" "x < 0 ? foo : 1" (of_Z (-1), of_Z 1) (of_Z 0).

Definition nanSlope : DerivativeGraph.Props :=
  DerivativeGraph.mkProps "x" "0/x" (of_Z (-1), of_Z 1) (of_Z 0).

Definition reciprocal : DerivativeGraph.Props :=
  DerivativeGraph.mkProps "1/x" "-1 / x ^ 2" (of_Z (-1), of_Z 2) (of_Z 1).

Definition rowsOf (p : DerivativeGraph.Props) : list DerivativeGraph.Sample :=
  valueOr [] (DerivativeGraph.newData Toy.evaluate p).

End Demo.

(* ================================================================== *)
(** ** Facts about numbers *)

Section NumberFacts.

Lemma Qis_zero_true (q : Q) : Qis_zero q = true <-> q == 0.
Proof.
  unfold Qis_zero, Qeq. rewrite Z.eqb_eq. simpl. lia.
Qed.

Lemma Qis_zero_false (q : Q) : Qis_zero q = false <-> ~ q == 0.
Proof.
  rewrite <- Qis_zero_true. destruct (Qis_zero q); intuition congruence.
Qed.

Lemma Qltb_true (a b : Q) : Qltb a b = true <-> a < b.
Proof.
  unfold Qltb. rewrite negb_true_iff. split; intro H.
  - apply Qnot_le_lt. intro L. apply Qle_bool_iff in L. congruence.
  - destruct (Qle_bool b a) eqn:E; [|reflexivity].
    apply Qle_bool_iff in E. exfalso. apply (Qlt_not_le _ _ H E).
Qed.

Lemma Qltb_false (a b : Q) : Qltb a b = false <-> b <= a.
Proof.
  unfold Qltb. rewrite negb_false_iff. apply Qle_bool_iff.
Qed.


Lemma isFinite_finite (a : jsnum) : isFinite a = true <-> finite a.
Proof.
  unfold finite. destruct a; simpl; split; intro H;
    try discriminate; try (destruct H; discriminate); eauto.
Qed.

Lemma finite_Fin (q : Q) : finite (Fin q).
Proof. exists q. reflexivity. Qed.

Lemma same_refl (a : jsnum) : same a a.
Proof. destruct a; simpl; auto. reflexivity. Qed.

End NumberFacts.

Create HintDb js.
#[local] Hint Resolve finite_Fin same_refl : js.

(* ================================================================== *)
(** ** Facts about exceptions and loops *)

Section LoopFacts.

Context {I S : Type}.

(** A loop whose body never raises returns. *)
Lemma for_each_total (body : I -> S -> outcome S) (xs : list I) :
  (forall i s, exists s', body i s = Ret s') ->
  forall s, exists s', for_each xs body s = Ret s'.
Proof.
  intro Hbody. induction xs as [|i rest IH]; intro s; simpl.
  - eauto.
  - destruct (Hbody i s) as [s1 E]. rewrite E. simpl. apply IH.
Qed.

(** An invariant of the loop state that every iteration keeps holds of
    the final state. *)
Lemma for_each_invariant (P : S -> Prop) (body : I -> S -> outcome S)
  (xs : list I) :
  (forall i s s', P s -> body i s = Ret s' -> P s') ->
  forall s r, P s -> for_each xs body s = Ret r -> P r.
Proof.
  intro Hbody. induction xs as [|i rest IH]; intros s r Hs; simpl.
  - intro E. inversion E. subst. exact Hs.
  - destruct (body i s) as [s1|e] eqn:E; simpl; [|discriminate].
    apply IH. eapply Hbody; eauto.
Qed.

End LoopFacts.

(** A loop that appends the contribution of each index to a list. *)
Lemma for_each_append {I A : Type} (contrib : I -> list A)
  (body : I -> list A -> outcome (list A)) (xs : list I) :
  (forall i acc, body i acc = Ret (acc ++ contrib i)) ->
  forall acc, for_each xs body acc = Ret (acc ++ flat_map contrib xs).
Proof.
  intro Hbody. induction xs as [|i rest IH]; intro acc; simpl.
  - rewrite app_nil_r. reflexivity.
  - rewrite Hbody. simpl. rewrite IH, app_assoc. reflexivity.
Qed.

(* ================================================================== *)
(** ** The evaluator adapter *)

Section SafeEval.

Variable evaluate : evaluator.

Lemma safeEval_Ret (expr : string) (x v : jsnum) :
  evaluate expr x = Ret v -> Page.safeEval evaluate expr x = Ret v.
Proof. unfold Page.safeEval. intros ->. reflexivity. Qed.

Lemma safeEval_Throw (expr : string) (x : jsnum) (e : js_error) :
  evaluate expr x = Throw e -> Page.safeEval evaluate expr x = Ret NaN.
Proof. unfold Page.safeEval. intros ->. reflexivity. Qed.

(** [safeEval] returns. *)
Lemma safeEval_returns (expr : string) (x : jsnum) :
  exists v, Page.safeEval evaluate expr x = Ret v.
Proof.
  destruct (evaluate expr x) as [v|e] eqn:E.
  - exists v. now apply safeEval_Ret.
  - exists NaN. now apply safeEval_Throw with e.
Qed.

(** So does the central difference. *)
Lemma numericalDerivative_returns (func : string) (x h : jsnum) :
  exists v, Page.numericalDerivative evaluate func x h = Ret v.
Proof.
  unfold Page.numericalDerivative.
  destruct (safeEval_returns func (jadd x h)) as [a ->].
  destruct (safeEval_returns func (jsub x h)) as [b ->].
  simpl. eauto.
Qed.

End SafeEval.



(* ================================================================== *)
(** ** Events and the animation cells *)

Section AnimationFrame.

Import Page.

Lemma keeps_pure {A} (a : A) : keepsAnimation (pure a).
Proof. intro s. reflexivity. Qed.

Lemma keeps_lift {A} (m : outcome A) : keepsAnimation (lift m).
Proof. intro s. reflexivity. Qed.

Lemma keeps_update (f : AppState -> AppState) :
  (forall s, animation (f s) = animation s) -> keepsAnimation (update f).
Proof. intros H s. apply H. Qed.

Lemma keeps_andThen {A B} (m : action A) (k : A -> action B) :
  keepsAnimation m -> (forall a, keepsAnimation (k a)) ->
  keepsAnimation (andThen m k).
Proof.
  intros Hm Hk s. unfold andThen. specialize (Hm s).
  destruct (m s) as [s1 [a|e]]; simpl in *.
  - rewrite Hk. exact Hm.
  - exact Hm.
Qed.

Lemma keeps_catching (body : action unit) (handler : js_error -> action unit) :
  keepsAnimation body -> (forall e, keepsAnimation (handler e)) ->
  keepsAnimation (catching body handler).
Proof.
  intros Hb Hh s. unfold catching. specialize (Hb s).
  destruct (body s) as [s1 [u|e]]; simpl in *.
  - exact Hb.
  - rewrite Hh. exact Hb.
Qed.

Lemma keeps_if {A} (b : bool) (m1 m2 : action A) :
  keepsAnimation m1 -> keepsAnimation m2 ->
  keepsAnimation (if b then m1 else m2).
Proof. destruct b; auto. Qed.

End AnimationFrame.

Create HintDb frame.
#[local] Hint Resolve keeps_pure keeps_lift keeps_andThen keeps_catching
  keeps_if : frame.
#[local] Hint Extern 1 (keepsAnimation (Page.update _)) =>
  apply keeps_update; intro; reflexivity : frame.

Ltac frame := repeat (intros; auto with frame; try apply keeps_andThen;
                      try apply keeps_catching; try apply keeps_if).

(* ================================================================== *)
(** ** What the handlers keep *)

Section Preservation.

Import Page.

Context {B : Type} (proj : AppState -> B).

Lemma preserves_pure {A} (a : A) : preserves proj (pure a).
Proof. intro s. reflexivity. Qed.

Lemma preserves_lift {A} (m : outcome A) : preserves proj (lift m).
Proof. intro s. reflexivity. Qed.

Lemma preserves_update (f : AppState -> AppState) :
  (forall s, proj (f s) = proj s) -> preserves proj (update f).
Proof. intros H s. apply H. Qed.

Lemma preserves_andThen {A C} (m : action A) (k : A -> action C) :
  preserves proj m -> (forall a, preserves proj (k a)) ->
  preserves proj (andThen m k).
Proof.
  intros Hm Hk s. unfold andThen. specialize (Hm s).
  destruct (m s) as [s1 [a|e]]; simpl in *.
  - rewrite Hk. exact Hm.
  - exact Hm.
Qed.

Lemma preserves_catching (body : action unit) (handler : js_error -> action unit) :
  preserves proj body -> (forall e, preserves proj (handler e)) ->
  preserves proj (catching body handler).
Proof.
  intros Hb Hh s. unfold catching. specialize (Hb s).
  destruct (body s) as [s1 [u|e]]; simpl in *.
  - exact Hb.
  - rewrite Hh. exact Hb.
Qed.

Lemma preserves_if {A} (b : bool) (m1 m2 : action A) :
  preserves proj m1 -> preserves proj m2 ->
  preserves proj (if b then m1 else m2).
Proof. destruct b; auto. Qed.

End Preservation.

Create HintDb keep.
#[local] Hint Resolve preserves_pure preserves_lift preserves_andThen
  preserves_catching preserves_if : keep.
#[local] Hint Extern 1 (preserves _ (Page.update _)) =>
  apply preserves_update; intro; reflexivity : keep.

Ltac keeping := repeat (intros; auto with keep; try apply preserves_andThen;
                        try apply preserves_catching; try apply preserves_if).

Section Recomputation.

Import Page.

Variable evaluate : evaluator.

Lemma recompute_keeps (c : AppState) : keepsAnimation (recompute evaluate c).
Proof. unfold recompute. frame. Qed.

Lemma calculateDerivative_keeps (c : AppState) :
  keepsAnimation (calculateDerivative evaluate c).
Proof.
  pose proof (recompute_keeps c) as R.
  unfold calculateDerivative. frame.
Qed.

Lemma keeps_progress {A} (m : action A) :
  keepsAnimation m -> preserves (fun s => animationProgress (animation s)) m.
Proof. intros H s. now rewrite H. Qed.

Lemma keeps_running {A} (m : action A) :
  keepsAnimation m -> preserves (fun s => isAnimating (animation s)) m.
Proof. intros H s. now rewrite H. Qed.

Lemma handleMouseMove_keeps (c : AppState) (mouseX : jsnum) :
  keepsAnimation (handleMouseMove evaluate c mouseX).
Proof.
  intro s. unfold handleMouseMove.
  destruct (points (graph c)); [reflexivity|].
  destruct (isDragging (pointer s)); [reflexivity|].
  match goal with |- context [if ?b then _ else _] => destruct b end;
    [|reflexivity].
  match goal with
  | |- animation (fst (?m s)) = _ => assert (keepsAnimation m) as K by frame
  end.
  apply K.
Qed.

Lemma handlePan_keeps (c : AppState) (clientX clientY : jsnum) :
  keepsAnimation (handlePan c clientX clientY).
Proof.
  intro s. unfold handlePan.
  destruct (isDragging (pointer s)); reflexivity.
Qed.

(** The handlers other than the play button and the speed slider leave
    every animation cell as it was. *)
Lemma handle_keeps (e : event) (c : AppState) :
  e <> ToggleAnimation -> (forall value, e <> SpeedChange value) ->
  keepsAnimation (handle evaluate e c).
Proof.
  intros Ht Hs.
  pose proof (calculateDerivative_keeps c) as R.
  destruct e; simpl.
  - unfold handleTabChange. frame. destruct (predefinedFunctions value); frame.
  - unfold handleFunctionChange.
    destruct (findByName (activeTab (inputs c)) value); frame.
  - unfold handleCustomFunctionChange. frame.
  - unfold handleRangeChange. frame.
  - unfold handleWheel. frame.
  - intro s. reflexivity.
  - intro s. reflexivity.
  - unfold handleResetView. frame.
  - exact R.
  - apply handleMouseMove_keeps.
  - unfold handleMouseLeave. frame.
  - unfold handleMouseDown. frame.
  - unfold handleMouseUp. frame.
  - apply handlePan_keeps.
  - unfold handleResize. frame.
  - contradiction.
  - exfalso. exact (Hs value eq_refl).
Qed.

Lemma handle_progress (e : event) (c : AppState) :
  preserves (fun s => animationProgress (animation s)) (handle evaluate e c).
Proof.
  destruct e;
    try (apply keeps_progress; apply handle_keeps; intros; discriminate);
    intro s; reflexivity.
Qed.

Lemma startStop_progress (before after : AppState) :
  animationProgress (animation (startStop before after))
  = animationProgress (animation after).
Proof. unfold startStop. now destruct (_ && _)%bool. Qed.

Lemma startStop_running (before after : AppState) :
  isAnimating (animation (startStop before after))
  = isAnimating (animation after).
Proof. unfold startStop. now destruct (_ && _)%bool. Qed.

(** No event touches the progress of the animation. *)
Lemma dispatch_progress (e : event) (s : AppState) :
  animationProgress (animation (dispatch evaluate e s))
  = animationProgress (animation s).
Proof.
  unfold dispatch.
  destruct (depsChanged e s (fst (handle evaluate e s s))).
  - rewrite calculateDerivative_keeps, startStop_progress. apply handle_progress.
  - rewrite startStop_progress. apply handle_progress.
Qed.

(** Only the play button changes whether the animation runs. *)
Lemma dispatch_running (e : event) (s : AppState) :
  isAnimating (animation (dispatch evaluate e s))
  = match e with
    | ToggleAnimation => negb (isAnimating (animation s))
    | _ => isAnimating (animation s)
    end.
Proof.
  assert (isAnimating (animation (dispatch evaluate e s))
          = isAnimating (animation (fst (handle evaluate e s s)))) as E.
  { unfold dispatch.
    destruct (depsChanged e s (fst (handle evaluate e s s)));
      [rewrite calculateDerivative_keeps|]; apply startStop_running. }
  rewrite E.
  destruct e;
    try (apply (@keeps_running unit); apply handle_keeps; intros; discriminate);
    reflexivity.
Qed.

End Recomputation.

(* ================================================================== *)
(** ** The frame callback *)

Section Frames.

Import Page.

Lemma jdiv_Fin (p q : Q) : ~ q == 0 -> jdiv (Fin p) (Fin q) = Fin (p / q).
Proof.
  intro H. simpl. apply Qis_zero_false in H. rewrite H. reflexivity.
Qed.

Lemma period_positive (v : Q) : 0 < v -> 0 < inject_Z 5000 / v.
Proof.
  intro Hv. unfold Qdiv. apply Qmult_lt_0_compat.
  - reflexivity.
  - now apply Qinv_lt_0_compat.
Qed.

Lemma advance_nonneg (v e : Q) :
  0 < v -> 0 <= e -> 0 <= e / (inject_Z 5000 / v).
Proof.
  intros Hv He. unfold Qdiv at 1. apply Qmult_le_0_compat; [exact He|].
  apply Qlt_le_weak, Qinv_lt_0_compat. now apply period_positive.
Qed.

(** The updater passed to [setAnimationProgress], on finite inputs. *)
Lemma nextProgress_Fin (v e p : Q) :
  0 < v ->
  nextProgress (Fin v) (Fin e) (Fin p)
  = if Qltb (inject_Z 1) (p + e / (inject_Z 5000 / v))
    then of_Z 0 else Fin (p + e / (inject_Z 5000 / v)).
Proof.
  intro Hv. unfold nextProgress, of_Z.
  rewrite (jdiv_Fin (inject_Z 5000) (q:=v)) by (intro Z; rewrite Z in Hv; discriminate).
  rewrite jdiv_Fin.
  - reflexivity.
  - intro Z. pose proof (period_positive Hv) as P. rewrite Z in P. discriminate.
Qed.

(** What [animate] stores in [animationProgress]. *)
Lemma animate_progress (c s : AppState) (timestamp : jsnum) :
  animationProgress (animation (fst (animate c timestamp s)))
  = nextProgress (animationSpeed (animation c)) (elapsedAt timestamp s)
                 (animationProgress (animation s)).
Proof. reflexivity. Qed.

End Frames.

(** C5: a frame with elapsed time [e >= 0] at speed [v > 0], from a
    progress [p] in [[0, 1]], stores a progress [q] in [[0, 1]]: the
    advanced value [p + e / (5000 / v)] when that does not exceed 1, and 0
    once it does. *)
Theorem animate_keeps_progress_in_range (c s : Page.AppState) (t v e p : Q) :
  Page.animationSpeed (Page.animation c) = Fin v ->
  Page.animationProgress (Page.animation s) = Fin p ->
  elapsedAt (Fin t) s = Fin e ->
  0 < v -> 0 <= e -> 0 <= p <= 1 ->
  exists q,
    Page.animationProgress (Page.animation (fst (Page.animate c (Fin t) s))) = Fin q
    /\ 0 <= q <= 1
    /\ (p + e / (inject_Z 5000 / v) <= 1 -> q == p + e / (inject_Z 5000 / v))
    /\ (1 < p + e / (inject_Z 5000 / v) -> q == 0).
Proof.
  intros Hv Hp He Vpos Epos [P0 P1].
  rewrite animate_progress, Hv, Hp, He, nextProgress_Fin by exact Vpos.
  pose proof (advance_nonneg Vpos Epos) as A.
  destruct (Qltb (inject_Z 1) (p + e / (inject_Z 5000 / v))) eqn:W.
  - apply Qltb_true in W. exists (inject_Z 0). repeat split; try easy.
    intro L. exfalso. apply (Qlt_not_le _ _ W). exact L.
  - apply Qltb_false in W. exists (p + e / (inject_Z 5000 / v)).
    repeat split; try easy.
    + lra.
    + intro L. exfalso. apply (Qlt_not_le _ _ L). exact W.
Qed.

(** The frame 2500 ms after the first one, at speed 1, from progress 0. *)
Lemma animate_keeps_progress_in_range_witness :
  exists q,
    Page.animationProgress
      (Page.animation
         (fst (Page.animate Demo.view (Fin 3500)
                 (fst (Page.animate Demo.view (of_Z 1000) Demo.view))))) = Fin q
    /\ 0 <= q <= 1
    /\ ((0 # 5000) + 2500 / (inject_Z 5000 / 1) <= 1 ->
        q == (0 # 5000) + 2500 / (inject_Z 5000 / 1))
    /\ (1 < (0 # 5000) + 2500 / (inject_Z 5000 / 1) -> q == 0).
Proof.
  apply (@animate_keeps_progress_in_range Demo.view
           (fst (Page.animate Demo.view (of_Z 1000) Demo.view))
           3500 1 2500 (0 # 5000));
    try reflexivity; try discriminate.
  split; discriminate.
Defined.

(* ================================================================== *)
(** ** The viewport transform *)

Section Viewport.

Import Page.

Variable s : AppState.
Variables a b d : Q.
Hypothesis Hrange : viewRange (inputs s) = (Fin a, Fin b).
Hypothesis Hpan : x (panOffset (viewport s)) = Fin d.

(** The effective range at a non-zero finite zoom. *)
Lemma effectiveRange_Fin (z : Q) :
  ~ z == 0 ->
  getEffectiveViewRange (setZoomLevel (Fin z) s)
  = (Fin (centerQ a b d - zoomedWidthQ a b z / inject_Z 2),
     Fin (centerQ a b d + zoomedWidthQ a b z / inject_Z 2)).
Proof.
  intro Hz. unfold getEffectiveViewRange. simpl.
  rewrite Hrange, Hpan. simpl.
  apply Qis_zero_false in Hz. rewrite Hz. reflexivity.
Qed.

Lemma effectiveRange_width (z : Q) :
  ~ z == 0 ->
  exists w, widthOf (getEffectiveViewRange (setZoomLevel (Fin z) s)) = Fin w
            /\ w == zoomedWidthQ a b z.
Proof.
  intro Hz. rewrite effectiveRange_Fin by exact Hz.
  eexists. split; [reflexivity|]. simpl. field.
Qed.

Lemma zoomedWidth_positive (z : Q) : a < b -> 0 < z -> 0 < zoomedWidthQ a b z.
Proof.
  intros Hab Hz. unfold zoomedWidthQ, Qdiv. apply Qmult_lt_0_compat.
  - lra.
  - now apply Qinv_lt_0_compat.
Qed.

Lemma zoomedWidth_shrinks (z1 z2 : Q) :
  a < b -> 0 < z1 -> z1 < z2 -> zoomedWidthQ a b z2 < zoomedWidthQ a b z1.
Proof.
  intros Hab H1 H12. unfold zoomedWidthQ, Qdiv.
  assert (H2 : 0 < z2) by lra.
  apply Qmult_lt_l; [lra|].
  apply -> Qinv_lt_contravar; assumption.
Qed.

End Viewport.

Lemma setZoomLevel_same (s : Page.AppState) :
  Page.setZoomLevel (Page.zoomLevel (Page.viewport s)) s = s.
Proof. destruct s as [i [z p w h] g an pt]. reflexivity. Qed.

(** C7, as stated, fails on the numbers of the program: the strict
    inequality does not survive the rounding.  On the base domain
    [[-20, -19]] without pan, the zoom levels 0.6 and 0.6000000000000001,
    both reached from the initial zoom and both within the bounds, give the
    same effective range, hence the same width. *)
Lemma adjacent_zooms_show_the_same_range :
  ~ (forall (viewRange : PrimFloat.float * PrimFloat.float)
            (panX z1 z2 : PrimFloat.float),
       PrimFloat.ltb (fst viewRange) (snd viewRange) = true ->
       PrimFloat.ltb z1 z2 = true ->
       PrimFloat.leb Doubles.minZoom z1 = true ->
       PrimFloat.leb z2 Doubles.maxZoom = true ->
       PrimFloat.ltb
         (Doubles.widthOf (Doubles.getEffectiveViewRange viewRange z2 panX))
         (Doubles.widthOf (Doubles.getEffectiveViewRange viewRange z1 panX))
       = true).
Proof.
  intro H.
  specialize (H Doubles.leftmost PrimFloat.zero Doubles.zoomUp Doubles.zoomDown).
  vm_compute in H.
  discriminate (H eq_refl eq_refl eq_refl eq_refl).
Qed.

(** The two zoom levels differ, and the two ranges are the same pair of
    numbers. *)
Lemma adjacent_zooms_ranges :
  PrimFloat.ltb Doubles.zoomUp Doubles.zoomDown = true
  /\ Doubles.getEffectiveViewRange Doubles.leftmost Doubles.zoomUp PrimFloat.zero
     = Doubles.getEffectiveViewRange Doubles.leftmost Doubles.zoomDown
         PrimFloat.zero.
Proof. split; vm_compute; reflexivity. Qed.

(** C7, amended: for a base domain [[a, b]] with [a < b] and a pan [d], the
    effective range at zoom [z > 0] is
    [(center - zoomedWidth / 2, center + zoomedWidth / 2)] with
    [center = (a + b) / 2 + d] and [zoomedWidth = (b - a) / z]; and, in
    exact arithmetic, of two zooms [0 < z1 < z2] the larger gives the
    strictly narrower range. *)
Theorem effectiveRange_formula_and_monotone (s : Page.AppState) (a b d : Q) :
  Page.viewRange (Page.inputs s) = (Fin a, Fin b) ->
  Page.x (Page.panOffset (Page.viewport s)) = Fin d ->
  a < b ->
  (forall z, 0 < z ->
     Page.getEffectiveViewRange (Page.setZoomLevel (Fin z) s)
     = (Fin (centerQ a b d - zoomedWidthQ a b z / inject_Z 2),
        Fin (centerQ a b d + zoomedWidthQ a b z / inject_Z 2)))
  /\ (forall z1 z2, 0 < z1 -> z1 < z2 ->
        jlt (widthOf (Page.getEffectiveViewRange (Page.setZoomLevel (Fin z2) s)))
            (widthOf (Page.getEffectiveViewRange (Page.setZoomLevel (Fin z1) s)))
        = true).
Proof.
  intros Hr Hp Hab. split.
  - intros z Hz. apply (effectiveRange_Fin s Hr Hp).
    intro Z. rewrite Z in Hz. discriminate.
  - intros z1 z2 H1 H12.
    assert (N1 : ~ z1 == 0) by (intro Z; rewrite Z in H1; discriminate).
    assert (N2 : ~ z2 == 0) by (intro Z; rewrite Z in H12; lra).
    destruct (effectiveRange_width s Hr Hp N1) as [w1 [E1 W1]].
    destruct (effectiveRange_width s Hr Hp N2) as [w2 [E2 W2]].
    rewrite E1, E2. simpl. apply Qltb_true. rewrite W1, W2.
    now apply zoomedWidth_shrinks.
Qed.

(** The default view [[-10, 10]]: zoom 1 shows the whole domain, and zoom
    2 is narrower than zoom 1. *)
Lemma effectiveRange_formula_and_monotone_witness :
  Page.getEffectiveViewRange (Page.setZoomLevel (Fin 1) Demo.view)
  = (Fin (centerQ (-10) 10 0 - zoomedWidthQ (-10) 10 1 / inject_Z 2),
     Fin (centerQ (-10) 10 0 + zoomedWidthQ (-10) 10 1 / inject_Z 2))
  /\ jlt (widthOf (Page.getEffectiveViewRange (Page.setZoomLevel (Fin 2) Demo.view)))
         (widthOf (Page.getEffectiveViewRange (Page.setZoomLevel (Fin 1) Demo.view)))
     = true.
Proof.
  destruct (@effectiveRange_formula_and_monotone Demo.view (-10) 10 0)
    as [F M]; try reflexivity.
  split.
  - apply F. reflexivity.
  - apply M; reflexivity.
Defined.

(* ================================================================== *)
(** ** Mathematical abscissa to pixel and back *)

Section RoundTrip.

Import Page.
Local Open Scope Q_scope.

Lemma mapToSVG_Some (s : AppState) (pt : Point) (range : jsnum * jsnum) :
  mapToSVG s (Some pt) range = Ret (toSVG s range pt).
Proof. reflexivity. Qed.

(** The two maps on finite data: a range [[lo, hi]] with [lo < hi] and a
    drawing area wider than the two paddings. *)
Lemma pixel_round_trip_Q (lo hi w px : Q) :
  lo < hi -> 80 < w ->
  let xScale := (w - inject_Z 2 * inject_Z 40) / (hi - lo) in
  lo + ((inject_Z 40 + (px - lo) * xScale) - inject_Z 40) / xScale == px.
Proof.
  intros Hlo Hw xScale. subst xScale.
  assert (~ hi - lo == 0) by lra.
  assert (~ w - inject_Z 2 * inject_Z 40 == 0)
    by (change (inject_Z 2 * inject_Z 40) with 80; lra).
  field. split; assumption.
Qed.

Variable s : AppState.
Variables lo hi w : Q.
Hypothesis Heff : getEffectiveViewRange s = (Fin lo, Fin hi).
Hypothesis Hwidth : svgWidth (viewport s) = Fin w.
Hypothesis Hlo : lo < hi.
Hypothesis Hw : 80 < w.

Lemma xScale_Fin :
  jdiv (jsub (Fin w) (jmul (of_Z 2) padding)) (jsub (Fin hi) (Fin lo))
  = Fin ((w - inject_Z 2 * inject_Z 40) / (hi - lo)).
Proof.
  simpl. assert (N : ~ hi + - lo == 0) by lra.
  apply Qis_zero_false in N. rewrite N. reflexivity.
Qed.

Lemma xScale_nonzero : ~ (w - inject_Z 2 * inject_Z 40) / (hi - lo) == 0.
Proof.
  intro Z. assert (P : 0 < (w - inject_Z 2 * inject_Z 40) / (hi - lo)).
  { unfold Qdiv. apply Qmult_lt_0_compat.
    - change (inject_Z 2 * inject_Z 40) with 80. lra.
    - apply Qinv_lt_0_compat. lra. }
  rewrite Z in P. discriminate.
Qed.

(** The pointer inverse applied to the pixel abscissa of a point. *)
Lemma pointerToX_toSVG (pt : Point) (px : Q) :
  x pt = Fin px ->
  exists q, pointerToX s (x (toSVG s (getEffectiveViewRange s) pt)) = Fin q
            /\ q == px.
Proof.
  intro Hx. unfold pointerToX, toSVG. rewrite Heff, Hwidth, Hx.
  cbn [fst snd x]. rewrite xScale_Fin.
  pose proof xScale_nonzero as N. apply Qis_zero_false in N.
  unfold jsub, jmul, jadd, jneg, padding, of_Z. cbn [jdiv]. rewrite N.
  eexists. split; [reflexivity|].
  apply pixel_round_trip_Q; assumption.
Qed.

End RoundTrip.

Section PointerHighlight.

Import Page.
Local Open Scope Q_scope.

Variable evaluate : evaluator.

Lemma setZoomLevel_current (s : AppState) (z : jsnum) :
  zoomLevel (viewport s) = z -> setZoomLevel z s = s.
Proof. intros <-. apply setZoomLevel_same. Qed.

(** The effective range of a state with finite domain, pan and zoom. *)
Lemma effectiveRange_of_state (s : AppState) (a b d z : Q) :
  viewRange (inputs s) = (Fin a, Fin b) ->
  x (panOffset (viewport s)) = Fin d ->
  zoomLevel (viewport s) = Fin z ->
  a < b -> 0 < z ->
  exists lo hi, getEffectiveViewRange s = (Fin lo, Fin hi) /\ lo < hi.
Proof.
  intros Hr Hp Hz Hab Zpos.
  rewrite <- (setZoomLevel_current s Hz).
  rewrite (effectiveRange_Fin s Hr Hp)
    by (intro Z; rewrite Z in Zpos; discriminate).
  do 2 eexists. split; [reflexivity|].
  pose proof (zoomedWidth_positive (a:=a) (b:=b) Hab Zpos) as P.
  assert (H2 : 0 < zoomedWidthQ a b z / inject_Z 2).
  { unfold Qdiv at 1. apply Qmult_lt_0_compat; [exact P | reflexivity]. }
  lra.
Qed.

(** A pointer position whose abscissa falls inside the effective range is
    highlighted at that abscissa. *)
Lemma handleMouseMove_highlights (s : AppState) (mouseX : jsnum) (q : Q) :
  points (graph s) <> [] ->
  isDragging (pointer s) = false ->
  pointerToX s mouseX = Fin q ->
  jle (fst (getEffectiveViewRange s)) (Fin q) = true ->
  jle (Fin q) (snd (getEffectiveViewRange s)) = true ->
  let s' := fst (handleMouseMove evaluate s mouseX s) in
  highlighted (pointer s') = true /\ hx (highlightPoint (pointer s')) = Fin q.
Proof.
  intros Hpts Hdrag Hx Hlo Hhi. unfold handleMouseMove.
  destruct (points (graph s)) as [|p0 rest]; [congruence|].
  rewrite Hdrag, Hx. unfold jge. rewrite Hlo, Hhi. cbn [andb].
  unfold andThen, lift.
  destruct (safeEval_returns evaluate (customFunction (inputs s)) (Fin q))
    as [yv ->].
  destruct (numericalDerivative_returns evaluate (customFunction (inputs s))
              (Fin q) default_h) as [dv ->].
  simpl. split; reflexivity.
Qed.

Lemma jle_Fin_compat (p q r : Q) :
  q == r -> jle (Fin p) (Fin r) = true -> jle (Fin p) (Fin q) = true.
Proof.
  simpl. intros E H. apply Qle_bool_iff. apply Qle_bool_iff in H.
  now rewrite E.
Qed.

Lemma jle_Fin_compat_l (p q r : Q) :
  q == r -> jle (Fin r) (Fin p) = true -> jle (Fin q) (Fin p) = true.
Proof.
  simpl. intros E H. apply Qle_bool_iff. apply Qle_bool_iff in H.
  now rewrite E.
Qed.

End PointerHighlight.

(** C6: for a finite base domain [a < b], zoom [z > 0], pan and a drawing
    area wider than its two paddings, [mapToSVG] followed by the pointer
    inverse of [handleMouseMove] gives back the abscissa of the point, with
    no error at all in exact arithmetic; and when that abscissa lies in the
    effective range, [handleMouseMove] at the pixel highlights it. *)
Theorem viewport_round_trip (evaluate : evaluator) (s : Page.AppState)
  (pt : Page.Point) (a b d z w px : Q) :
  Page.viewRange (Page.inputs s) = (Fin a, Fin b) ->
  Page.x (Page.panOffset (Page.viewport s)) = Fin d ->
  Page.zoomLevel (Page.viewport s) = Fin z ->
  Page.svgWidth (Page.viewport s) = Fin w ->
  Page.x pt = Fin px ->
  a < b -> 0 < z -> 80 < w ->
  exists m,
    Page.mapToSVG s (Some pt) (Page.getEffectiveViewRange s) = Ret m
    /\ (exists q, Page.pointerToX s (Page.x m) = Fin q /\ q == px)
    /\ (Page.points (Page.graph s) <> [] ->
        Page.isDragging (Page.pointer s) = false ->
        jle (fst (Page.getEffectiveViewRange s)) (Fin px) = true ->
        jle (Fin px) (snd (Page.getEffectiveViewRange s)) = true ->
        let s' := fst (Page.handleMouseMove evaluate s (Page.x m) s) in
        Page.highlighted (Page.pointer s') = true
        /\ same (Page.hx (Page.highlightPoint (Page.pointer s'))) (Fin px)).
Proof.
  intros Hr Hp Hz Hw Hx Hab Zpos Wide.
  destruct (effectiveRange_of_state s Hr Hp Hz Hab Zpos) as [lo [hi [E L]]].
  exists (toSVG s (Page.getEffectiveViewRange s) pt).
  destruct (@pointerToX_toSVG s lo hi w E Hw L Wide pt px Hx) as [q [Q1 Q2]].
  split; [apply mapToSVG_Some|]. split; [eauto|].
  intros Hpts Hdrag Hlo Hhi.
  rewrite E in Hlo, Hhi. cbn [fst snd] in Hlo, Hhi.
  destruct (@handleMouseMove_highlights evaluate s
              (Page.x (toSVG s (Page.getEffectiveViewRange s) pt)) q)
    as [H1 H2]; try assumption.
  - rewrite E. cbn [fst]. now apply jle_Fin_compat with px.
  - rewrite E. cbn [snd]. now apply jle_Fin_compat_l with px.
  - cbv zeta. rewrite H1, H2. split; [reflexivity | exact Q2].
Qed.

(** The point [(3, 9)] of the plotted square function, in the default
    view. *)
Lemma viewport_round_trip_witness :
  exists m,
    Page.mapToSVG Demo.plotted (Some (Page.mkPoint (Fin 3) (Fin 9)))
      (Page.getEffectiveViewRange Demo.plotted) = Ret m
    /\ (exists q, Page.pointerToX Demo.plotted (Page.x m) = Fin q /\ q == 3)
    /\ (let s' := fst (Page.handleMouseMove Toy.evaluate Demo.plotted (Page.x m)
                         Demo.plotted) in
        Page.highlighted (Page.pointer s') = true
        /\ same (Page.hx (Page.highlightPoint (Page.pointer s'))) (Fin 3)).
Proof.
  destruct (@viewport_round_trip Toy.evaluate Demo.plotted
              (Page.mkPoint (Fin 3) (Fin 9)) (-10) 10 0 1 880 3)
    as [m [H1 [H2 H3]]]; try (vm_compute; reflexivity).
  exists m. split; [exact H1|]. split; [exact H2|].
  apply H3; try (vm_compute; reflexivity).
  vm_compute. discriminate.
Defined.

(* ================================================================== *)
(** ** The animated path *)

Section AnimatedPath.

Import Page.
Local Open Scope Q_scope.

Variable s : AppState.
Variable range : jsnum * jsnum.

Lemma jle_of_nat_of_Z (i : nat) (k : Z) :
  jle (of_nat i) (of_Z k) = (Z.of_nat i <=? k)%Z.
Proof.
  unfold of_nat, of_Z, jle, Qle_bool. simpl. now rewrite !Z.mul_1_r.
Qed.

Lemma jle_of_Z (k n : Z) : jle (of_Z k) (of_Z n) = (k <=? n)%Z.
Proof.
  unfold of_Z, jle, Qle_bool. simpl. now rewrite !Z.mul_1_r.
Qed.

(** While the end index stays below the number of points, the loop stops
    by its own test and has drawn a line to each point it read. *)
Lemma lineTo_upto_prefix (k : Z) (rest : list Point) :
  forall (i : nat) (path : list segment),
    (k < Z.of_nat i + Z.of_nat (List.length rest))%Z ->
    lineTo_upto s range (of_Z k) i rest path
    = Ret (path ++ map (fun pt => LineTo (toSVG s range pt))
                       (firstn (Z.to_nat (k + 1 - Z.of_nat i)) rest)).
Proof.
  induction rest as [|pt rest' IH]; intros i path Hk; cbn [lineTo_upto];
    rewrite jle_of_nat_of_Z.
  - simpl in Hk. destruct (Z.leb_spec (Z.of_nat i) k); [lia|].
    rewrite firstn_nil, app_nil_r. reflexivity.
  - destruct (Z.leb_spec (Z.of_nat i) k) as [L|G].
    + rewrite mapToSVG_Some. cbn [bind]. rewrite IH by (simpl in Hk; lia).
      replace (Z.to_nat (k + 1 - Z.of_nat i))
        with (S (Z.to_nat (k + 1 - Z.of_nat (S i)))) by lia.
      simpl. rewrite <- app_assoc. reflexivity.
    + replace (Z.to_nat (k + 1 - Z.of_nat i)) with 0%nat by lia.
      simpl. now rewrite app_nil_r.
Qed.

(** Once the end index reaches the number of points, the loop reads
    [points[points.length]], which is [undefined], and [mapToSVG] raises. *)
Lemma lineTo_upto_overrun (k : Z) (rest : list Point) :
  forall (i : nat) (path : list segment),
    (Z.of_nat i + Z.of_nat (List.length rest) <= k)%Z ->
    lineTo_upto s range (of_Z k) i rest path = Throw undefinedPoint.
Proof.
  induction rest as [|pt rest' IH]; intros i path Hk; cbn [lineTo_upto];
    rewrite jle_of_nat_of_Z; simpl in Hk;
    destruct (Z.leb_spec (Z.of_nat i) k); try lia.
  - reflexivity.
  - rewrite mapToSVG_Some. cbn [bind]. apply IH. lia.
Qed.

Lemma endIndex_of_progress (pts : list Point) (p : Q) :
  animationProgress (animation s) = Fin p ->
  Math_floor (jmul (of_nat (List.length pts)) (animationProgress (animation s)))
  = of_Z (endIndexZ pts p).
Proof. intros ->. reflexivity. Qed.

Lemma endIndex_below (pts : list Point) (p : Q) :
  pts <> [] -> p < 1 -> (endIndexZ pts p < Z.of_nat (List.length pts))%Z.
Proof.
  intros Hne Hp. unfold endIndexZ.
  set (n := Z.of_nat (List.length pts)).
  assert (Hn : (0 < n)%Z) by (destruct pts; [congruence | subst n; simpl; lia]).
  rewrite Zlt_Qlt.
  apply Qle_lt_trans with (inject_Z n * p); [apply Qfloor_le|].
  assert (0 < inject_Z n) by (change 0 with (inject_Z 0); now rewrite <- Zlt_Qlt).
  nra.
Qed.

Lemma endIndex_reaches (pts : list Point) (p : Q) :
  1 <= p -> (Z.of_nat (List.length pts) <= endIndexZ pts p)%Z.
Proof.
  intro Hp. unfold endIndexZ.
  set (n := Z.of_nat (List.length pts)).
  rewrite <- (Qfloor_Z n) at 1. apply Qfloor_resp_le.
  assert (0 <= inject_Z n).
  { change 0 with (inject_Z 0). rewrite <- Zle_Qle. subst n. lia. }
  nra.
Qed.

(** The animated path for a progress below 1: nothing while the end index
    is not positive, then a path through the first [endIndex + 1] points. *)
Lemma createPath_animated_prefix (pts : list Point) (p : Q) :
  animationProgress (animation s) = Fin p ->
  p < 1 ->
  exists path,
    createPath s pts range true = Ret path
    /\ vertices path
       = if (endIndexZ pts p <=? 0)%Z then []
         else map (toSVG s range)
                  (firstn (Z.to_nat (endIndexZ pts p + 1)) pts).
Proof.
  intros Hp Hlt. destruct pts as [|p0 rest] eqn:Epts.
  - exists []. split; [reflexivity|]. simpl.
    destruct (endIndexZ [] p <=? 0)%Z; reflexivity.
  - assert (Hne : pts <> []) by (subst pts; discriminate).
    rewrite Epts in Hne.
    pose proof (endIndex_below Hne Hlt) as B.
    unfold createPath. rewrite (endIndex_of_progress (p0 :: rest) Hp).
    rewrite jle_of_Z.
    destruct (Z.leb_spec (endIndexZ (p0 :: rest) p) 0) as [L|G].
    + exists []. split; reflexivity.
    + rewrite mapToSVG_Some. cbn [bind].
      rewrite lineTo_upto_prefix by (cbn [List.length] in B; lia).
      eexists. split; [reflexivity|].
      replace (Z.to_nat (endIndexZ (p0 :: rest) p + 1))
        with (S (Z.to_nat (endIndexZ (p0 :: rest) p + 1 - Z.of_nat 1))) by lia.
      unfold vertices. simpl. rewrite map_map. reflexivity.
Qed.

End AnimatedPath.

(** C4, where the code departs from it: at a progress of 1 the end index
    equals the number of points, the loop [for (i = 1; i <= endIndex; i++)]
    reads one element past the last, and [createPath] raises instead of
    returning the whole path.  (For a progress below 1 the path is the
    prefix the claim describes: [createPath_animated_prefix].) *)
Theorem createPath_full_progress_overruns (s : Page.AppState)
  (range : jsnum * jsnum) (pts : list Page.Point) (p : Q) :
  Page.animationProgress (Page.animation s) = Fin p ->
  1 <= p ->
  pts <> [] ->
  Page.createPath s pts range true = Throw undefinedPoint.
Proof.
  intros Hp H1 Hne. destruct pts as [|p0 rest]; [congruence|].
  pose proof (endIndex_reaches (p0 :: rest) H1) as R.
  unfold Page.createPath. rewrite (endIndex_of_progress s (p0 :: rest) Hp).
  rewrite jle_of_Z. cbn [List.length] in R.
  destruct (Z.leb_spec (endIndexZ (p0 :: rest) p) 0) as [L|G]; [lia|].
  rewrite mapToSVG_Some. cbn [bind].
  apply lineTo_upto_overrun. lia.
Qed.

(** Two frames 5000 ms apart at speed 1 leave the progress at exactly 1;
    a curve of two points then fails to draw. *)
Lemma createPath_full_progress_overruns_witness :
  Page.animationProgress (Page.animation Demo.cycleEnd)
  = Fin (25000000 # 25000000)
  /\ Page.createPath Demo.cycleEnd Demo.twoPoints
       (Page.getEffectiveViewRange Demo.cycleEnd) true
     = Throw undefinedPoint.
Proof.
  split; [reflexivity|].
  apply (@createPath_full_progress_overruns Demo.cycleEnd
           (Page.getEffectiveViewRange Demo.cycleEnd) Demo.twoPoints
           (25000000 # 25000000)).
  - reflexivity.
  - discriminate.
  - discriminate.
Defined.

(* ================================================================== *)
(** ** The chart data *)

Section ChartData.

Import DerivativeGraph.

Variable evaluate : evaluator.
Variable p : Props.

Lemma pushPoint_appends (line : jsnum * jsnum) (i : nat) (acc : list Sample) :
  pushPoint evaluate p (fst line) (snd line) i acc
  = Ret (acc ++ rowAt evaluate p line i).
Proof.
  unfold pushPoint, rowAt.
  destruct (samplePoint evaluate p (fst line) (snd line) (gridX p i))
    as [[smp|]|e]; simpl; now rewrite ?app_nil_r.
Qed.

(** The data is, grid point after grid point, what each one contributes;
    the only way for [newData] to raise is the tangent line. *)
Lemma newData_rows (rows : list Sample) :
  newData evaluate p = Ret rows ->
  exists line, tangentLine evaluate p = Ret line
               /\ rows = flat_map (rowAt evaluate p line) (upto points).
Proof.
  unfold newData. destruct (tangentLine evaluate p) as [line|e]; cbn [bind];
    [|discriminate].
  rewrite (for_each_append (rowAt evaluate p line)
             (pushPoint evaluate p (fst line) (snd line)))
    by (intros; apply pushPoint_appends).
  intro E. inversion E. exists line. split; reflexivity.
Qed.

(** What a retained sample says about the evaluations at its abscissa. *)
Lemma samplePoint_retained (sl ic gx : jsnum) (smp : Sample) :
  samplePoint evaluate p sl ic gx = Ret (Some smp) ->
  exists yv,
    evaluate (func p) gx = Ret yv /\ finite yv
    /\ x smp = gx /\ y smp = yv /\ tangent smp = jadd (jmul sl gx) ic
    /\ ((nonempty (derivative p) = false /\ dy smp = of_Z 0)
        \/ (nonempty (derivative p) = true
            /\ exists dv, evaluate (derivative p) gx = Ret dv
                          /\ ((truthy dv = false /\ dy smp = of_Z 0)
                              \/ (truthy dv = true /\ finite dv
                                  /\ dy smp = dv)))).
Proof.
  unfold samplePoint.
  destruct (evaluate (func p) gx) as [yv|e]; simpl; [|discriminate].
  destruct (nonempty (derivative p)) eqn:Hd.
  - destruct (evaluate (derivative p) gx) as [dv|e]; simpl; [|discriminate].
    destruct (isFinite yv) eqn:Fy; simpl; [|discriminate].
    destruct (truthy dv) eqn:Td; simpl.
    + destruct (isFinite dv) eqn:Fd; [|discriminate].
      intro E. inversion E. subst smp. simpl.
      exists yv. apply isFinite_finite in Fy, Fd.
      repeat split; auto. right. split; [reflexivity|].
      exists dv. split; [reflexivity|]. right. auto.
    + intro E. inversion E. subst smp. simpl.
      exists yv. apply isFinite_finite in Fy.
      repeat split; auto. right. split; [reflexivity|].
      exists dv. split; [reflexivity|]. left. auto.
  - simpl. destruct (isFinite yv) eqn:Fy; simpl; [|discriminate].
    intro E. inversion E. subst smp. simpl.
    exists yv. apply isFinite_finite in Fy. repeat split; auto.
Qed.

Lemma rowAt_In (line : jsnum * jsnum) (i : nat) (smp : Sample) :
  In smp (rowAt evaluate p line i) ->
  samplePoint evaluate p (fst line) (snd line) (gridX p i) = Ret (Some smp).
Proof.
  unfold rowAt.
  destruct (samplePoint evaluate p (fst line) (snd line) (gridX p i))
    as [[s0|]|e]; simpl; intro H; try contradiction.
  destruct H as [E|[]]. now subst.
Qed.

Lemma rows_In (line : jsnum * jsnum) (smp : Sample) :
  In smp (flat_map (rowAt evaluate p line) (upto points)) ->
  exists i, (i <= points)%nat /\ In smp (rowAt evaluate p line i).
Proof.
  rewrite in_flat_map. intros [i [Hi Hs]]. exists i. split; [|exact Hs].
  unfold upto in Hi. apply in_seq in Hi. lia.
Qed.

(** A NaN derivative at a grid point with a finite value: the point is
    kept, with [dy] 0. *)
Lemma rowAt_nan_derivative (line : jsnum * jsnum) (i : nat) (yv : jsnum) :
  nonempty (derivative p) = true ->
  evaluate (func p) (gridX p i) = Ret yv -> finite yv ->
  evaluate (derivative p) (gridX p i) = Ret NaN ->
  rowAt evaluate p line i
  = [mkSample (gridX p i) yv (of_Z 0)
              (jadd (jmul (fst line) (gridX p i)) (snd line))].
Proof.
  intros Hd Hy [q ->] Hdy. unfold rowAt, samplePoint.
  rewrite Hy, Hd, Hdy. reflexivity.
Qed.

(** A derivative that raises at a grid point: the point is skipped. *)
Lemma rowAt_raising_derivative (line : jsnum * jsnum) (i : nat) (e : js_error) :
  nonempty (derivative p) = true ->
  evaluate (derivative p) (gridX p i) = Throw e ->
  rowAt evaluate p line i = [].
Proof.
  intros Hd Hdy. unfold rowAt, samplePoint. rewrite Hd, Hdy.
  destruct (evaluate (func p) (gridX p i)); reflexivity.
Qed.

(** An infinite derivative at a grid point: the point is dropped. *)
Lemma rowAt_infinite_derivative (line : jsnum * jsnum) (i : nat) (dv : jsnum) :
  nonempty (derivative p) = true ->
  evaluate (derivative p) (gridX p i) = Ret dv ->
  dv = PInf \/ dv = NInf ->
  rowAt evaluate p line i = [].
Proof.
  intros Hd Hdy Hinf. unfold rowAt, samplePoint. rewrite Hd, Hdy.
  destruct (evaluate (func p) (gridX p i)) as [yv|e]; [|reflexivity].
  simpl. destruct Hinf; subst dv; simpl; now rewrite andb_false_r.
Qed.

End ChartData.

(** C10: every row of the chart data has a finite [dy]: the value of the
    derivative at the grid point, or 0.  A NaN derivative is stored as 0,
    and a grid point whose derivative is an infinity contributes no row. *)
Theorem chart_dy_is_finite (evaluate : evaluator) (p : DerivativeGraph.Props)
  (rows : list DerivativeGraph.Sample) :
  DerivativeGraph.newData evaluate p = Ret rows ->
  exists line,
    rows = flat_map (rowAt evaluate p line) (upto DerivativeGraph.points)
    /\ (forall smp, In smp rows -> finite (DerivativeGraph.dy smp))
    /\ (forall i smp, In smp (rowAt evaluate p line i) ->
          DerivativeGraph.dy smp = of_Z 0
          \/ evaluate (DerivativeGraph.derivative p) (DerivativeGraph.gridX p i)
             = Ret (DerivativeGraph.dy smp))
    /\ (forall i smp,
          evaluate (DerivativeGraph.derivative p) (DerivativeGraph.gridX p i)
          = Ret NaN ->
          In smp (rowAt evaluate p line i) -> DerivativeGraph.dy smp = of_Z 0)
    /\ (forall i dv,
          DerivativeGraph.nonempty (DerivativeGraph.derivative p) = true ->
          evaluate (DerivativeGraph.derivative p) (DerivativeGraph.gridX p i)
          = Ret dv ->
          dv = PInf \/ dv = NInf ->
          rowAt evaluate p line i = []).
Proof.
  intro E. destruct (@newData_rows evaluate p rows E) as [line [_ Hrows]].
  exists line. split; [exact Hrows|].
  assert (K : forall i smp, In smp (rowAt evaluate p line i) ->
            (DerivativeGraph.dy smp = of_Z 0
             \/ (evaluate (DerivativeGraph.derivative p) (DerivativeGraph.gridX p i)
                 = Ret (DerivativeGraph.dy smp)
                 /\ truthy (DerivativeGraph.dy smp) = true
                 /\ finite (DerivativeGraph.dy smp)))).
  { intros i smp Hin. apply rowAt_In in Hin.
    destruct (@samplePoint_retained evaluate p _ _ _ _ Hin)
      as [yv [_ [_ [_ [_ [_ HD]]]]]].
    destruct HD as [[_ D] | [_ [dv [Hdv [[_ D] | [T [F D]]]]]]].
    - now left.
    - now left.
    - right. rewrite D. auto. }
  split; [|split; [|split]].
  - intros smp Hin. rewrite Hrows in Hin.
    destruct (@rows_In evaluate p line smp Hin) as [i [_ Hi]].
    destruct (K i smp Hi) as [Z | [_ [_ F]]]; [|exact F].
    rewrite Z. apply finite_Fin.
  - intros i smp Hin. destruct (K i smp Hin) as [Z | [D _]]; auto.
  - intros i smp Hnan Hin. destruct (K i smp Hin) as [Z | [D [T _]]]; [exact Z|].
    rewrite Hnan in D. inversion D as [D']. rewrite <- D' in T. discriminate.
  - intros i dv Hd Hdv Hinf. now apply rowAt_infinite_derivative with dv.
Qed.

(** The square function with derivative [2 * x] on [[-1, 1]]. *)
Lemma chart_dy_is_finite_witness :
  Forall (fun smp => finite (DerivativeGraph.dy smp))
         (Demo.rowsOf Demo.square).
Proof.
  destruct (@chart_dy_is_finite Toy.evaluate Demo.square
              (Demo.rowsOf Demo.square)) as [line [_ [F _]]].
  - vm_compute. reflexivity.
  - apply Forall_forall. exact F.
Defined.

Lemma same_jeqb (a : jsnum) (q : Q) : same a (Fin q) -> jeqb a (Fin q) = true.
Proof.
  destruct a; simpl; try contradiction. intro E. now apply Qeq_bool_iff.
Qed.

(** C2, as stated, fails: with the function [x] and a derivative text that
    raises for negative [x], the first grid point of [[-1, 1]] has a finite
    value and an invalid derivative, and no row of the data is at its
    abscissa. *)
Lemma raising_derivative_drops_point :
  ~ (forall (evaluate : evaluator) (p : DerivativeGraph.Props)
            (rows : list DerivativeGraph.Sample) (i : nat) (yv : jsnum),
       DerivativeGraph.newData evaluate p = Ret rows ->
       DerivativeGraph.nonempty (DerivativeGraph.derivative p) = true ->
       (i <= DerivativeGraph.points)%nat ->
       evaluate (DerivativeGraph.func p) (DerivativeGraph.gridX p i) = Ret yv ->
       finite yv ->
       invalid_at evaluate (DerivativeGraph.derivative p)
                  (DerivativeGraph.gridX p i) ->
       exists smp, In smp rows
                   /\ same (DerivativeGraph.x smp) (DerivativeGraph.gridX p i)
                   /\ DerivativeGraph.dy smp = of_Z 0).
Proof.
  intro H.
  destruct (H Toy.evaluate Demo.raising (Demo.rowsOf Demo.raising) 0%nat
              (Fin (-1 + 0 * ((1 - -1) / inject_Z 1000))))
    as [smp [Hin [Hx _]]].
  - vm_compute. reflexivity.
  - reflexivity.
  - unfold DerivativeGraph.points. lia.
  - reflexivity.
  - apply finite_Fin.
  - left. eexists. vm_compute. reflexivity.
  - assert (A : forallb
                  (fun r => negb (jeqb (DerivativeGraph.x r)
                                       (DerivativeGraph.gridX Demo.raising 0)))
                  (Demo.rowsOf Demo.raising) = true)
      by (vm_compute; reflexivity).
    rewrite forallb_forall in A. specialize (A smp Hin).
    change (DerivativeGraph.gridX Demo.raising 0)
      with (Fin (-1 + 0 * ((1 - -1) / inject_Z 1000))) in *.
    rewrite (@same_jeqb _ _ Hx) in A. discriminate.
Qed.

(** C2, amended: when a derivative is requested, a grid point whose value
    is finite and whose derivative evaluates to NaN is kept, with [dy] 0;
    a grid point at which the evaluation of the derivative raises is
    skipped, whatever its value. *)
Theorem nan_derivative_keeps_point (evaluate : evaluator)
  (p : DerivativeGraph.Props) (rows : list DerivativeGraph.Sample) :
  DerivativeGraph.newData evaluate p = Ret rows ->
  DerivativeGraph.nonempty (DerivativeGraph.derivative p) = true ->
  exists line,
    rows = flat_map (rowAt evaluate p line) (upto DerivativeGraph.points)
    /\ (forall i yv,
          evaluate (DerivativeGraph.func p) (DerivativeGraph.gridX p i) = Ret yv ->
          finite yv ->
          evaluate (DerivativeGraph.derivative p) (DerivativeGraph.gridX p i)
          = Ret NaN ->
          rowAt evaluate p line i
          = [DerivativeGraph.mkSample (DerivativeGraph.gridX p i) yv (of_Z 0)
               (jadd (jmul (fst line) (DerivativeGraph.gridX p i)) (snd line))])
    /\ (forall i e,
          evaluate (DerivativeGraph.derivative p) (DerivativeGraph.gridX p i)
          = Throw e ->
          rowAt evaluate p line i = []).
Proof.
  intros E Hd. destruct (@newData_rows evaluate p rows E) as [line [_ Hrows]].
  exists line. split; [exact Hrows|]. split.
  - intros i yv Hy Fy Hnan. now apply rowAt_nan_derivative.
  - intros i e Hthrow. now apply rowAt_raising_derivative with e.
Qed.

(** The function [x] with the derivative text [0/x] on [[-1, 1]]: the grid
    point 500 is at 0, where [0/x] is NaN; its row has [dy] 0. *)
Lemma nan_derivative_keeps_point_witness :
  exists line,
    Demo.rowsOf Demo.nanSlope
    = flat_map (rowAt Toy.evaluate Demo.nanSlope line)
               (upto DerivativeGraph.points)
    /\ rowAt Toy.evaluate Demo.nanSlope line 500
       = [DerivativeGraph.mkSample (DerivativeGraph.gridX Demo.nanSlope 500)
            (DerivativeGraph.gridX Demo.nanSlope 500) (of_Z 0)
            (jadd (jmul (fst line) (DerivativeGraph.gridX Demo.nanSlope 500))
                  (snd line))].
Proof.
  destruct (@nan_derivative_keeps_point Toy.evaluate Demo.nanSlope
              (Demo.rowsOf Demo.nanSlope)) as [line [R [K _]]].
  - vm_compute. reflexivity.
  - reflexivity.
  - exists line. split; [exact R|]. apply K.
    + reflexivity.
    + vm_compute. eexists. reflexivity.
    + vm_compute. reflexivity.
Defined.

(* ================================================================== *)
(** ** The tangent *)

Section Tangent.

Import DerivativeGraph.

Variable evaluate : evaluator.
Variable p : Props.



End Tangent.




(* ================================================================== *)
(** ** Retained samples *)

Section Sampler.

Variable evaluate : evaluator.

Lemma displayable_finite (v : jsnum) : Page.displayable v = true -> finite v.
Proof.
  unfold Page.displayable. intro H.
  apply andb_true_iff in H. destruct H as [H _].
  apply andb_true_iff in H. destruct H as [_ H].
  now apply isFinite_finite.
Qed.

(** [calculatePoints] returns, with what each grid point contributes. *)
Lemma calculatePoints_rows (func : string) (range : jsnum * jsnum) (n : nat) :
  Page.calculatePoints evaluate func range n
  = Ret (flat_map (pointAt evaluate func range n) (upto n)).
Proof.
  unfold Page.calculatePoints.
  rewrite (for_each_append (pointAt evaluate func range n)); [reflexivity|].
  intros i acc. unfold pointAt.
  destruct (Page.safeEval evaluate func
              (jadd (fst range)
                 (jmul (of_nat i)
                    (jdiv (jsub (snd range) (fst range)) (of_nat n)))))
    as [yv|e] eqn:E; cbn [bind].
  - destruct (Page.displayable yv); [reflexivity | now rewrite app_nil_r].
  - destruct (safeEval_returns evaluate func
                (jadd (fst range)
                   (jmul (of_nat i)
                      (jdiv (jsub (snd range) (fst range)) (of_nat n)))))
      as [v Hv].
    rewrite Hv in E. discriminate.
Qed.

Lemma pointAt_In (func : string) (range : jsnum * jsnum) (n i : nat)
  (pt : Page.Point) :
  In pt (pointAt evaluate func range n i) ->
  Page.safeEval evaluate func (Page.x pt) = Ret (Page.y pt)
  /\ Page.displayable (Page.y pt) = true.
Proof.
  unfold pointAt.
  destruct (Page.safeEval evaluate func _) as [yv|e] eqn:E;
    [|intros []].
  destruct (Page.displayable yv) eqn:D; [|intros []].
  intros [<- | []]. simpl. auto.
Qed.

(** The points of the derivative curve are displayable too. *)
Lemma derivativeCurve_displayable (func : string) (funcPoints : list Page.Point)
  (derPoints : list Page.Point) :
  Page.derivativeCurve evaluate func funcPoints = Ret derPoints ->
  forall pt, In pt derPoints -> Page.displayable (Page.y pt) = true.
Proof.
  unfold Page.derivativeCurve.
  apply (for_each_invariant
           (fun acc : list Page.Point =>
              forall pt, In pt acc -> Page.displayable (Page.y pt) = true)).
  - intros point acc acc' Hacc.
    destruct (Page.numericalDerivative evaluate func (Page.x point)
                Page.default_h) as [dv|e]; cbn [bind]; [|discriminate].
    destruct (Page.displayable dv) eqn:D; intro E; inversion E; subst acc'.
    + intros pt Hin. apply in_app_or in Hin. destruct Hin as [Hin | [<- | []]].
      * now apply Hacc.
      * exact D.
    + exact Hacc.
  - intros pt [].
Qed.

End Sampler.

Lemma reciprocal_finite_nonzero (xv : jsnum) :
  finite (jdiv (of_Z 1) xv) -> ~ same xv (of_Z 0).
Proof.
  intros [r F] S. destruct xv as [q| | |]; simpl in S; try contradiction.
  apply Qis_zero_true in S. simpl in F. rewrite S in F. discriminate.
Qed.

Section Reciprocal.

Variable evaluate : evaluator.

Hypothesis Hrecip :
  forall xv, evaluate "1/x"%string xv = Ret (jdiv (of_Z 1) xv).

Lemma reciprocal_value (q : Q) :
  ~ q == 0 -> jdiv (of_Z 1) (Fin q) = Fin (1 / q).
Proof. intro H. unfold of_Z. now rewrite jdiv_Fin. Qed.

(** What a grid point away from 0 contributes to the curve of
    [calculatePoints]: its point, when the value is below 100 in
    magnitude. *)
Lemma pointAt_reciprocal (range : jsnum * jsnum) (n i : nat) (q : Q) :
  jadd (fst range)
       (jmul (of_nat i) (jdiv (jsub (snd range) (fst range)) (of_nat n)))
  = Fin q ->
  ~ q == 0 ->
  pointAt evaluate "1/x" range n i
  = if Qltb (Qabs (1 / q)) 100
    then [Page.mkPoint (Fin q) (Fin (1 / q))]
    else [].
Proof.
  intros Hx Hq. unfold pointAt. rewrite Hx.
  rewrite (safeEval_Ret evaluate _ _ (Hrecip (Fin q))).
  rewrite reciprocal_value by exact Hq.
  unfold Page.displayable. reflexivity.
Qed.

(** What a grid point away from 0 contributes to the chart data: its row,
    unless the derivative raises or is infinite there. *)
Lemma rowAt_reciprocal (p : DerivativeGraph.Props) (line : jsnum * jsnum)
  (i : nat) (q : Q) :
  DerivativeGraph.func p = "1/x"%string ->
  DerivativeGraph.gridX p i = Fin q ->
  ~ q == 0 ->
  (DerivativeGraph.nonempty (DerivativeGraph.derivative p) = true ->
   exists dv, evaluate (DerivativeGraph.derivative p) (Fin q) = Ret dv
              /\ dv <> PInf /\ dv <> NInf) ->
  exists smp, rowAt evaluate p line i = [smp]
              /\ DerivativeGraph.x smp = Fin q
              /\ DerivativeGraph.y smp = Fin (1 / q).
Proof.
  intros Hf Hx Hq Hder. unfold rowAt, DerivativeGraph.samplePoint.
  rewrite Hx, Hf, Hrecip, reciprocal_value by exact Hq. cbn [bind].
  destruct (DerivativeGraph.nonempty (DerivativeGraph.derivative p)) eqn:Hd.
  - destruct (Hder eq_refl) as [dv [E [N1 N2]]]. rewrite E. cbn [bind].
    destruct dv as [r| | |]; try contradiction.
    + cbn [isFinite DerivativeGraph.isFiniteOpt andb]. rewrite orb_true_r.
      eexists. split; [reflexivity|]. split; reflexivity.
    + eexists. split; [reflexivity|]. split; reflexivity.
  - eexists. split; [reflexivity|]. split; reflexivity.
Qed.

End Reciprocal.

(** C8, as stated, fails in its last part: for the reciprocal on
    [[-1, 2]] no grid point is at 0; the nearest one, at -1/1000, has the
    finite value -1000 and is a row of the chart data. *)
Lemma nearest_grid_point_is_retained :
  ~ (forall (evaluate : evaluator) (p : DerivativeGraph.Props)
            (rows : list DerivativeGraph.Sample) (i : nat),
       (forall xv, evaluate "1/x"%string xv = Ret (jdiv (of_Z 1) xv)) ->
       DerivativeGraph.func p = "1/x"%string ->
       spansZero p = true ->
       DerivativeGraph.newData evaluate p = Ret rows ->
       (i <= DerivativeGraph.points)%nat ->
       nearestToZero p i = true ->
       forall smp, In smp rows ->
                   DerivativeGraph.x smp <> DerivativeGraph.gridX p i).
Proof.
  intro H.
  assert (A : forall smp, In smp (Demo.rowsOf Demo.reciprocal) ->
                DerivativeGraph.x smp
                <> DerivativeGraph.gridX Demo.reciprocal 333).
  { apply (H Toy.evaluate).
    - intro xv. reflexivity.
    - reflexivity.
    - vm_compute. reflexivity.
    - vm_compute. reflexivity.
    - unfold DerivativeGraph.points. lia.
    - vm_compute. reflexivity. }
  assert (E : option_map DerivativeGraph.x
                (nth_error (Demo.rowsOf Demo.reciprocal) 333)
              = Some (DerivativeGraph.gridX Demo.reciprocal 333))
    by (vm_compute; reflexivity).
  destruct (nth_error (Demo.rowsOf Demo.reciprocal) 333) as [smp|] eqn:N;
    [|discriminate].
  apply nth_error_In in N. simpl in E. inversion E as [E'].
  exact (A smp N E').
Qed.

(** C8, amended: every point [calculatePoints] retains, every point of the
    derivative curve and every row of the chart data has a finite value;
    neither NaN nor an infinity is stored as [y].  For the reciprocal, no
    retained sample has the abscissa 0: a grid point whose computed abscissa
    is 0 evaluates to an infinity and is absent.  A grid point whose
    computed abscissa [q] is not 0 has the value [1 / q] (finite here, where
    no quotient overflows): it is a row of the chart data, unless the
    derivative text raises or is infinite there, and it is a point of the
    curve of [calculatePoints] exactly when [|1 / q| < 100]. *)
Theorem retained_samples_are_finite (evaluate : evaluator) :
  (forall func range n,
     exists pts, Page.calculatePoints evaluate func range n = Ret pts
                 /\ forall pt, In pt pts -> finite (Page.y pt))
  /\ (forall func funcPoints derPoints,
        Page.derivativeCurve evaluate func funcPoints = Ret derPoints ->
        forall pt, In pt derPoints -> finite (Page.y pt))
  /\ (forall p rows,
        DerivativeGraph.newData evaluate p = Ret rows ->
        forall smp, In smp rows -> finite (DerivativeGraph.y smp))
  /\ ((forall xv, evaluate "1/x"%string xv = Ret (jdiv (of_Z 1) xv)) ->
      (forall range n pts,
         Page.calculatePoints evaluate "1/x" range n = Ret pts ->
         forall pt, In pt pts -> ~ same (Page.x pt) (of_Z 0))
      /\ (forall p rows,
            DerivativeGraph.func p = "1/x"%string ->
            DerivativeGraph.newData evaluate p = Ret rows ->
            forall smp, In smp rows -> ~ same (DerivativeGraph.x smp) (of_Z 0))
      /\ (forall p rows i q,
            DerivativeGraph.func p = "1/x"%string ->
            DerivativeGraph.newData evaluate p = Ret rows ->
            (i <= DerivativeGraph.points)%nat ->
            DerivativeGraph.gridX p i = Fin q ->
            ~ q == 0 ->
            (DerivativeGraph.nonempty (DerivativeGraph.derivative p) = true ->
             exists dv,
               evaluate (DerivativeGraph.derivative p) (Fin q) = Ret dv
               /\ dv <> PInf /\ dv <> NInf) ->
            exists smp, In smp rows
                        /\ DerivativeGraph.x smp = Fin q
                        /\ DerivativeGraph.y smp = Fin (1 / q))
      /\ (forall range n pts i q,
            Page.calculatePoints evaluate "1/x" range n = Ret pts ->
            (i <= n)%nat ->
            jadd (fst range)
                 (jmul (of_nat i)
                       (jdiv (jsub (snd range) (fst range)) (of_nat n)))
            = Fin q ->
            ~ q == 0 ->
            pts = flat_map (pointAt evaluate "1/x" range n) (upto n)
            /\ (Qabs (1 / q) < 100 ->
                In (Page.mkPoint (Fin q) (Fin (1 / q))) pts)
            /\ (100 <= Qabs (1 / q) ->
                pointAt evaluate "1/x" range n i = []))).
Proof.
  split; [|split; [|split]].
  - intros func range n. eexists. split; [apply calculatePoints_rows|].
    intros pt Hin. apply in_flat_map in Hin. destruct Hin as [i [_ Hin]].
    apply pointAt_In in Hin. apply displayable_finite. tauto.
  - intros func funcPoints derPoints E pt Hin.
    apply displayable_finite.
    now apply (@derivativeCurve_displayable evaluate func funcPoints derPoints).
  - intros p rows E smp Hin.
    destruct (@newData_rows evaluate p rows E) as [line [_ Hrows]].
    rewrite Hrows in Hin.
    destruct (@rows_In evaluate p line smp Hin) as [i [_ Hi]].
    apply rowAt_In in Hi.
    destruct (@samplePoint_retained evaluate p _ _ _ _ Hi)
      as [yv [_ [F [_ [Hy _]]]]].
    now rewrite Hy.
  - intro Hrecip. split; [|split; [|split]].
    + intros range n pts E pt Hin.
      rewrite calculatePoints_rows in E.
      assert (E' : pts = flat_map (pointAt evaluate "1/x" range n) (upto n))
        by congruence.
      rewrite E' in Hin. apply in_flat_map in Hin. destruct Hin as [i [_ Hin]].
      apply pointAt_In in Hin. destruct Hin as [Hy D].
      rewrite (safeEval_Ret evaluate _ _ (Hrecip (Page.x pt))) in Hy.
      assert (Hy' : jdiv (of_Z 1) (Page.x pt) = Page.y pt) by congruence.
      apply reciprocal_finite_nonzero.
      rewrite Hy'. now apply displayable_finite.
    + intros p rows Hf E smp Hin.
      destruct (@newData_rows evaluate p rows E) as [line [_ Hrows]].
      rewrite Hrows in Hin.
      destruct (@rows_In evaluate p line smp Hin) as [i [_ Hi]].
      apply rowAt_In in Hi.
      destruct (@samplePoint_retained evaluate p _ _ _ _ Hi)
        as [yv [Hev [F [Hx _]]]].
      rewrite Hf, Hrecip in Hev.
      assert (Hv : jdiv (of_Z 1) (DerivativeGraph.gridX p i) = yv) by congruence.
      apply reciprocal_finite_nonzero. rewrite Hx, Hv. exact F.
    + intros p rows i q Hf E Hi Hx Hq Hder.
      destruct (@newData_rows evaluate p rows E) as [line [_ Hrows]].
      destruct (@rowAt_reciprocal evaluate Hrecip p line i q Hf Hx Hq Hder)
        as [smp [R [X Y]]].
      exists smp. split; [|split; assumption].
      rewrite Hrows. apply in_flat_map. exists i. split.
      * unfold upto. apply in_seq. lia.
      * rewrite R. now left.
    + intros range n pts i q E Hi Hx Hq.
      rewrite calculatePoints_rows in E.
      assert (E' : pts = flat_map (pointAt evaluate "1/x" range n) (upto n))
        by congruence.
      pose proof (@pointAt_reciprocal evaluate Hrecip range n i q Hx Hq) as R.
      split; [exact E'|]. split.
      * intro Hlt. apply Qltb_true in Hlt. rewrite Hlt in R.
        rewrite E'. apply in_flat_map. exists i. split.
        -- unfold upto. apply in_seq. lia.
        -- rewrite R. now left.
      * intro Hge. apply Qltb_false in Hge. now rewrite Hge in R.
Qed.

(** The reciprocal.  On [[-10, 10]] with 500 intervals no retained point is
    at 0.  On the chart domain [[-1, 2]] every row has a finite value, and
    the grid point 333, at [-1/1000], is the row with the value [-1000],
    which the curve of [calculatePoints] would drop. *)
Lemma retained_samples_are_finite_witness :
  (forall pt,
     In pt (valueOr [] (Page.calculatePoints Toy.evaluate "1/x"
                          (of_Z (-10), of_Z 10) 500)) ->
     ~ same (Page.x pt) (of_Z 0))
  /\ (forall smp, In smp (Demo.rowsOf Demo.reciprocal) ->
                  finite (DerivativeGraph.y smp))
  /\ (exists smp, In smp (Demo.rowsOf Demo.reciprocal)
                  /\ DerivativeGraph.x smp = Fin (- (1 # 1000))
                  /\ DerivativeGraph.y smp = Fin (1 / - (1 # 1000)))
  /\ pointAt Toy.evaluate "1/x" (of_Z (-1), of_Z 2) 1000 333 = [].
Proof.
  destruct (@retained_samples_are_finite Toy.evaluate) as [_ [_ [G R]]].
  destruct R as [R1 [_ [R3 R4]]]; [intro xv; reflexivity|].
  split; [|split; [|split]].
  - apply (R1 (of_Z (-10), of_Z 10) 500%nat).
    vm_compute. reflexivity.
  - apply (G Demo.reciprocal). vm_compute. reflexivity.
  - apply (R3 Demo.reciprocal _ 333%nat).
    + reflexivity.
    + vm_compute. reflexivity.
    + unfold DerivativeGraph.points. lia.
    + vm_compute. reflexivity.
    + intro H. vm_compute in H. discriminate.
    + intros _. exists (Fin (- (1000000 # 1))). split; [vm_compute; reflexivity|].
      split; discriminate.
  - eapply (R4 (of_Z (-1), of_Z 2) 1000%nat _ 333%nat (- (1 # 1000))).
    + vm_compute. reflexivity.
    + lia.
    + vm_compute. reflexivity.
    + intro H. vm_compute in H. discriminate.
    + vm_compute. discriminate.
Defined.

(* ================================================================== *)
(** ** More on the paths *)

Section Paths.

Import Page.
Local Open Scope Q_scope.

Variable s : AppState.
Variable range : jsnum * jsnum.

(** The loop of the static branch draws a line to every remaining point. *)
Lemma lineTo_all_map (rest : list Point) :
  forall path,
    lineTo_all s range rest path
    = Ret (path ++ map (fun pt => LineTo (toSVG s range pt)) rest).
Proof.
  unfold lineTo_all.
  induction rest as [|pt rest' IH]; intro path; simpl.
  - now rewrite app_nil_r.
  - rewrite IH, <- app_assoc. reflexivity.
Qed.

Lemma createPath_static (pts : list Point) :
  exists path, createPath s pts range false = Ret path
               /\ vertices path = map (toSVG s range) pts.
Proof.
  destruct pts as [|p0 rest].
  - exists []. split; reflexivity.
  - unfold createPath. rewrite mapToSVG_Some. cbn [bind].
    rewrite lineTo_all_map. eexists. split; [reflexivity|].
    unfold vertices. simpl. rewrite map_map. reflexivity.
Qed.

Lemma endIndex_monotone (pts : list Point) (p p' : Q) :
  p <= p' -> (endIndexZ pts p <= endIndexZ pts p')%Z.
Proof.
  intro H. unfold endIndexZ. apply Qfloor_resp_le.
  assert (0 <= inject_Z (Z.of_nat (List.length pts))).
  { change 0 with (inject_Z 0). rewrite <- Zle_Qle. lia. }
  nra.
Qed.

End Paths.

Lemma firstn_extends {A} (n m : nat) (l : list A) :
  (n <= m)%nat -> exists more, firstn m l = firstn n l ++ more.
Proof.
  intro H. exists (skipn n (firstn m l)).
  rewrite <- (firstn_skipn n (firstn m l)) at 1.
  rewrite firstn_firstn. now rewrite Nat.min_l.
Qed.

Lemma vertices_length (path : list Page.segment) :
  List.length (Page.vertices path) = List.length path.
Proof. unfold Page.vertices. apply length_map. Qed.

(** Below a progress of 1 the animated path goes through the first
    [endIndex + 1] points, in order, and through none while [endIndex] is
    not positive; it never has more vertices than there are points. *)
Theorem animated_path_is_prefix (s : Page.AppState) (range : jsnum * jsnum)
  (pts : list Page.Point) (p : Q) :
  Page.animationProgress (Page.animation s) = Fin p ->
  p < 1 ->
  exists path,
    Page.createPath s pts range true = Ret path
    /\ Page.vertices path
       = (if (endIndexZ pts p <=? 0)%Z then []
          else map (toSVG s range)
                   (firstn (Z.to_nat (endIndexZ pts p + 1)) pts))
    /\ (List.length path <= List.length pts)%nat.
Proof.
  intros Hp Hlt.
  destruct (@createPath_animated_prefix s range pts p Hp Hlt) as [path [E V]].
  exists path. split; [exact E|]. split; [exact V|].
  rewrite <- vertices_length, V.
  destruct (endIndexZ pts p <=? 0)%Z; simpl; [lia|].
  rewrite length_map, length_firstn. lia.
Qed.

(** Half a cycle into the animation, a curve of two points is drawn up to
    its second point. *)
Lemma animated_path_is_prefix_witness :
  exists path,
    Page.createPath Demo.halfway Demo.twoPoints
      (Page.getEffectiveViewRange Demo.halfway) true = Ret path
    /\ Page.vertices path
       = (if (endIndexZ Demo.twoPoints (12500000 # 25000000) <=? 0)%Z then []
          else map (toSVG Demo.halfway (Page.getEffectiveViewRange Demo.halfway))
                   (firstn (Z.to_nat (endIndexZ Demo.twoPoints
                                        (12500000 # 25000000) + 1))
                           Demo.twoPoints))
    /\ (List.length path <= List.length Demo.twoPoints)%nat.
Proof.
  apply (@animated_path_is_prefix Demo.halfway
           (Page.getEffectiveViewRange Demo.halfway) Demo.twoPoints
           (12500000 # 25000000)); reflexivity.
Defined.

(** The path of the static branch never fails and goes through every point
    of the curve, in order. *)
Theorem static_path_draws_every_point (s : Page.AppState)
  (range : jsnum * jsnum) (pts : list Page.Point) :
  exists path,
    Page.createPath s pts range false = Ret path
    /\ Page.vertices path = map (toSVG s range) pts.
Proof. apply createPath_static. Qed.

(** The reveal is monotone: with the same viewport, a larger progress
    below 1 draws the path of the smaller progress and continues it. *)
Theorem animated_path_grows (s s' : Page.AppState) (range : jsnum * jsnum)
  (pts : list Page.Point) (p p' : Q) :
  Page.viewport s' = Page.viewport s ->
  Page.animationProgress (Page.animation s) = Fin p ->
  Page.animationProgress (Page.animation s') = Fin p' ->
  p <= p' -> p' < 1 ->
  exists path path' more,
    Page.createPath s pts range true = Ret path
    /\ Page.createPath s' pts range true = Ret path'
    /\ Page.vertices path' = Page.vertices path ++ more.
Proof.
  intros Hv Hp Hp' Hle Hlt.
  assert (Hlt0 : p < 1) by lra.
  destruct (@createPath_animated_prefix s range pts p Hp Hlt0) as [path [E V]].
  destruct (@createPath_animated_prefix s' range pts p' Hp' Hlt) as [path' [E' V']].
  pose proof (endIndex_monotone pts Hle) as M.
  assert (T : forall l, map (toSVG s' range) l = map (toSVG s range) l).
  { intro l. apply map_ext. intro pt. unfold toSVG. now rewrite Hv. }
  exists path, path'. rewrite V, V'.
  destruct (Z.leb_spec (endIndexZ pts p) 0) as [L|G].
  - eexists. split; [exact E|]. split; [exact E'|]. reflexivity.
  - destruct (Z.leb_spec (endIndexZ pts p') 0) as [L'|G']; [lia|].
    destruct (@firstn_extends _ (Z.to_nat (endIndexZ pts p + 1))
                (Z.to_nat (endIndexZ pts p' + 1)) pts) as [more Hmore]; [lia|].
    exists (map (toSVG s range) more).
    split; [exact E|]. split; [exact E'|].
    now rewrite T, Hmore, map_app.
Qed.

(** A quarter of a cycle, then half a cycle, over a curve of two points. *)
Lemma animated_path_grows_witness :
  exists path path' more,
    Page.createPath
      (Page.setAnimationProgress (fun _ => Fin (1 # 4)) Demo.view)
      Demo.twoPoints (Page.getEffectiveViewRange Demo.view) true = Ret path
    /\ Page.createPath
         (Page.setAnimationProgress (fun _ => Fin (1 # 2)) Demo.view)
         Demo.twoPoints (Page.getEffectiveViewRange Demo.view) true = Ret path'
    /\ Page.vertices path' = Page.vertices path ++ more.
Proof.
  apply (@animated_path_grows
           (Page.setAnimationProgress (fun _ => Fin (1 # 4)) Demo.view)
           (Page.setAnimationProgress (fun _ => Fin (1 # 2)) Demo.view)
           (Page.getEffectiveViewRange Demo.view) Demo.twoPoints
           (1 # 4) (1 # 2)); try reflexivity; discriminate.
Defined.

Section Recalculation.

Import Page.

Variable evaluate : evaluator.

Lemma calculateDerivative_preserves_viewport (c : AppState) :
  preserves viewport (calculateDerivative evaluate c).
Proof. unfold calculateDerivative, recompute. keeping. Qed.

Lemma calculateDerivative_preserves_inputs (c : AppState) :
  preserves inputs (calculateDerivative evaluate c).
Proof. unfold calculateDerivative, recompute. keeping. Qed.

Lemma calculatePoints_returns (func : string) (range : jsnum * jsnum) (n : nat) :
  exists pts, calculatePoints evaluate func range n = Ret pts.
Proof. eexists. apply calculatePoints_rows. Qed.

Lemma derivativeCurve_returns (func : string) (funcPoints : list Point) :
  exists derPoints, derivativeCurve evaluate func funcPoints = Ret derPoints.
Proof.
  unfold derivativeCurve. apply for_each_total. intros point acc.
  destruct (numericalDerivative_returns evaluate func (x point) default_h)
    as [dv ->].
  cbn [bind]. destruct (displayable dv); eauto.
Qed.

(** The recomputation never raises: it stores the sampled curve and its
    derivative curve and clears the message, or, on the custom tab with a
    blank function, it clears both curves and keeps the message. *)
Lemma calculateDerivative_result (c s : AppState) :
  snd (calculateDerivative evaluate c s) = Ret tt
  /\ (let g := graph (fst (calculateDerivative evaluate c s)) in
      if blankCustom c
      then points g = [] /\ derivativePoints g = []
           /\ errorMessage g = errorMessage (graph s)
      else exists funcPoints derPoints,
             sampledCurve evaluate c = Ret funcPoints
             /\ derivativeCurve evaluate (customFunction (inputs c)) funcPoints
                = Ret derPoints
             /\ points g = funcPoints /\ derivativePoints g = derPoints
             /\ errorMessage g = EmptyString).
Proof.
  destruct (calculatePoints_returns (customFunction (inputs c))
              (getEffectiveViewRange c) default_numPoints) as [fp Hfp].
  destruct (derivativeCurve_returns (customFunction (inputs c)) fp)
    as [dp Hdp].
  destruct (numericalDerivative_returns evaluate (customFunction (inputs c))
              (of_Z 0) default_h) as [dv Hdv].
  unfold blankCustom, calculateDerivative, recompute, sampledCurve, catching,
    andThen, lift, update.
  destruct (tab_eqb (activeTab (inputs c)) custom);
    [destruct (blank (customFunction (inputs c)))|];
    cbn [andb]; rewrite ?Hdv, ?Hfp, ?Hdp; cbn [fst snd].
  - split; [reflexivity|]. repeat split; reflexivity.
  - split; [reflexivity|]. exists fp, dp.
    repeat split; try reflexivity; assumption.
  - split; [reflexivity|]. exists fp, dp.
    repeat split; try reflexivity; assumption.
Qed.

(** The derivative curve has a point only where the function curve has
    one. *)
Lemma derivativeCurve_abscissas (func : string) (funcPoints derPoints : list Point) :
  derivativeCurve evaluate func funcPoints = Ret derPoints ->
  forall dp, In dp derPoints -> exists fp, In fp funcPoints /\ x fp = x dp.
Proof.
  unfold derivativeCurve. intro E.
  assert (G : forall seen todo acc r,
             (forall dp, In dp acc -> exists fp, In fp seen /\ x fp = x dp) ->
             for_each todo
               (fun point derPoints0 =>
                  dy <- numericalDerivative evaluate func (x point) default_h ;;
                  if displayable dy
                  then Ret (derPoints0 ++ [mkPoint (x point) dy])
                  else Ret derPoints0) acc = Ret r ->
             forall dp, In dp r -> exists fp, In fp (seen ++ todo) /\ x fp = x dp).
  { intros seen todo. revert seen.
    induction todo as [|pt todo IH]; intros seen acc r Hacc; cbn [for_each].
    - intro R. inversion R. subst r. rewrite app_nil_r. exact Hacc.
    - destruct (numericalDerivative evaluate func (x pt) default_h) as [dv|e];
        cbn [bind]; [|discriminate].
      replace (seen ++ pt :: todo) with ((seen ++ [pt]) ++ todo)
        by (rewrite <- app_assoc; reflexivity).
      destruct (displayable dv); cbn [bind]; intro R;
        refine (IH (seen ++ [pt]) _ r _ R); intros dp Hin.
      + apply in_app_or in Hin. destruct Hin as [Hin | [<- | []]].
        * destruct (Hacc dp Hin) as [fp [F1 F2]]. exists fp.
          split; [apply in_or_app; now left | exact F2].
        * exists pt. split; [apply in_or_app; right; now left | reflexivity].
      + destruct (Hacc dp Hin) as [fp [F1 F2]]. exists fp.
        split; [apply in_or_app; now left | exact F2]. }
  intros dp Hin.
  apply (G [] funcPoints [] derPoints); auto. intros d [].
Qed.

(** Whatever the state before, the curves stored by the recomputation are
    consistent. *)
Lemma calculateDerivative_consistent (c s : AppState) :
  curvesConsistent (fst (calculateDerivative evaluate c s)).
Proof.
  destruct (calculateDerivative_result c s) as [_ R]. cbv zeta in R.
  unfold curvesConsistent, allDisplayable.
  destruct (blankCustom c).
  - destruct R as [-> [-> _]]. repeat split; intros pt [].
  - destruct R as [fp [dp [Hfp [Hdp [-> [-> _]]]]]].
    unfold sampledCurve in Hfp. rewrite calculatePoints_rows in Hfp.
    assert (Efp : fp = flat_map
                         (pointAt evaluate (customFunction (inputs c))
                                  (getEffectiveViewRange c) default_numPoints)
                         (upto default_numPoints)) by congruence.
    split; [|split].
    + intros pt Hin. rewrite Efp in Hin. apply in_flat_map in Hin.
      destruct Hin as [i [_ Hin]]. apply pointAt_In in Hin. tauto.
    + now apply (@derivativeCurve_displayable evaluate
                   (customFunction (inputs c)) fp dp).
    + now apply (@derivativeCurve_abscissas (customFunction (inputs c)) fp dp).
Qed.

End Recalculation.

Section EventFacts.

Import Page.

Variable evaluate : evaluator.

Lemma curvesConsistent_ext (s s' : AppState) :
  points (graph s') = points (graph s) ->
  derivativePoints (graph s') = derivativePoints (graph s) ->
  curvesConsistent s -> curvesConsistent s'.
Proof.
  unfold curvesConsistent. intros -> ->. auto.
Qed.

(** [handleTabChange] ends with a recomputation. *)
Lemma handleTabChange_recomputes (c s : AppState) (value : tab) :
  exists s0, handleTabChange evaluate c value s
             = calculateDerivative evaluate c s0.
Proof.
  destruct value; unfold handleTabChange, andThen, update;
    cbn -[calculateDerivative]; eexists; reflexivity.
Qed.

(** The effect that starts the animation writes [animationRef] only. *)
Lemma startStop_inputs (before after : AppState) :
  inputs (startStop before after) = inputs after.
Proof. unfold startStop. now destruct (_ && _)%bool. Qed.

Lemma startStop_viewport (before after : AppState) :
  viewport (startStop before after) = viewport after.
Proof. unfold startStop. now destruct (_ && _)%bool. Qed.

Lemma startStop_graph (before after : AppState) :
  graph (startStop before after) = graph after.
Proof. unfold startStop. now destruct (_ && _)%bool. Qed.

(** The pointer handlers write the highlight, the drag cells and the pan
    offset only. *)
Lemma handleMouseMove_preserves {B} (proj : AppState -> B) (c : AppState)
  (mouseX : jsnum) :
  (forall v s, proj (setHighlighted v s) = proj s) ->
  (forall v s, proj (setHighlightPoint v s) = proj s) ->
  preserves proj (handleMouseMove evaluate c mouseX).
Proof.
  intros H1 H2 s. unfold handleMouseMove.
  destruct (points (graph c)); [reflexivity|].
  destruct (isDragging (pointer s)); [reflexivity|].
  match goal with |- context [if ?b then _ else _] => destruct b end;
    [|reflexivity].
  match goal with
  | |- proj (fst (?m s)) = _ => assert (preserves proj m) as K
  end.
  { apply preserves_andThen; [apply preserves_lift|intro].
    apply preserves_andThen; [apply preserves_lift|intro].
    apply preserves_andThen; [|intro]; apply preserves_update; intro;
      [apply H1 | apply H2]. }
  apply K.
Qed.

Lemma handlePan_preserves {B} (proj : AppState -> B) (c : AppState)
  (clientX clientY : jsnum) :
  (forall v s, proj (setPanOffset v s) = proj s) ->
  (forall v s, proj (setLastMousePos v s) = proj s) ->
  preserves proj (handlePan c clientX clientY).
Proof.
  intros H1 H2 s. unfold handlePan.
  destruct (isDragging (pointer s)); [|reflexivity].
  cbn [negb]. unfold andThen, update. cbn [fst]. now rewrite H2, H1.
Qed.

(** The handlers other than the tab change and the Calculate button leave
    the stored curves alone. *)
Lemma handle_preserves_curves (e : event) (c : AppState) :
  (forall value, e <> TabChange value) -> e <> Calculate ->
  preserves (fun s => (points (graph s), derivativePoints (graph s)))
            (handle evaluate e c).
Proof.
  intros H H'. destruct e; simpl.
  - now destruct (H value).
  - unfold handleFunctionChange.
    destruct (findByName (activeTab (inputs c)) value); keeping.
  - unfold handleCustomFunctionChange. keeping.
  - unfold handleRangeChange. keeping.
  - unfold handleWheel. keeping.
  - intro s. reflexivity.
  - intro s. reflexivity.
  - unfold handleResetView. keeping.
  - contradiction.
  - apply handleMouseMove_preserves; reflexivity.
  - unfold handleMouseLeave. keeping.
  - unfold handleMouseDown. keeping.
  - unfold handleMouseUp. keeping.
  - apply handlePan_preserves; reflexivity.
  - unfold handleResize. keeping.
  - unfold toggleAnimation. keeping.
  - unfold changeSpeed. keeping.
Qed.

Lemma handle_consistent (e : event) (c s : AppState) :
  curvesConsistent s -> curvesConsistent (fst (handle evaluate e c s)).
Proof.
  intro H.
  assert (K : (forall value, e <> TabChange value) -> e <> Calculate ->
              curvesConsistent (fst (handle evaluate e c s))).
  { intros N N'. pose proof (@handle_preserves_curves e c N N' s) as P.
    cbv beta in P. injection P as P1 P2.
    now apply (@curvesConsistent_ext s _ P1 P2). }
  destruct e; try (apply K; intros; discriminate).
  - simpl. destruct (handleTabChange_recomputes c s value) as [s0 ->].
    apply calculateDerivative_consistent.
  - simpl. apply calculateDerivative_consistent.
Qed.

(** What a change of the custom function text leaves in the inputs. *)
Lemma handleCustomFunctionChange_inputs (text : string) (s : AppState) :
  inputs (fst (handleCustomFunctionChange evaluate text s))
  = mkInputs (activeTab (inputs s)) text (viewRange (inputs s)).
Proof.
  unfold handleCustomFunctionChange.
  set (tail := catching _ _).
  assert (T : preserves inputs tail) by (subst tail; keeping).
  unfold andThen, update. cbn [fst snd]. rewrite T. reflexivity.
Qed.

(** When a dependency of the effect changed, the stored curves are the
    ones of the new render. *)
Lemma dispatch_recomputes (e : event) (s : AppState) :
  depsChanged e s (fst (handle evaluate e s s)) = true ->
  recomputedFrom evaluate (fst (handle evaluate e s s))
                 (graph (dispatch evaluate e s)).
Proof.
  intro D. unfold dispatch. rewrite D.
  set (s1 := fst (handle evaluate e s s)).
  destruct (calculateDerivative_result evaluate s1 (startStop s s1)) as [_ R].
  cbv zeta in R. unfold recomputedFrom.
  destruct (blankCustom s1).
  - destruct R as [R1 [R2 _]]. split; assumption.
  - exact R.
Qed.

End EventFacts.

(** C3, as stated, fails: half a cycle into the animation, a change of the
    domain recomputes the curves and leaves the progress at one half. *)
Lemma domain_change_keeps_stale_progress :
  ~ (forall (evaluate : evaluator) (values : jsnum * jsnum) (s : Page.AppState),
       same (Page.animationProgress
               (Page.animation (Page.dispatch evaluate (Page.RangeChange values) s)))
            (of_Z 0)).
Proof.
  intro H.
  specialize (H Toy.evaluate (of_Z (-5), of_Z 5) Demo.halfway).
  rewrite dispatch_progress in H. vm_compute in H. discriminate.
Qed.

(** C3, amended: whatever the event (a change of the expression, of the
    domain, of the zoom, a drag that pans the view, or any other handler of
    the component but the frame callback), [animationProgress] is left as
    it was, whether or not the animation is running, and only the play
    button changes [isAnimating]: the progress is written by the frame
    callback [animate] only.  When the event changed a dependency of the
    recomputation effect, the stored curves are the ones sampled from the
    new render; a change of the domain, a pointer move during a drag and a
    new expression text do change one. *)
Theorem change_leaves_progress (evaluate : evaluator) (e : Page.event)
  (s : Page.AppState) :
  Page.animationProgress (Page.animation (Page.dispatch evaluate e s))
  = Page.animationProgress (Page.animation s)
  /\ Page.isAnimating (Page.animation (Page.dispatch evaluate e s))
     = match e with
       | Page.ToggleAnimation => negb (Page.isAnimating (Page.animation s))
       | _ => Page.isAnimating (Page.animation s)
       end
  /\ (Page.depsChanged e s (fst (Page.handle evaluate e s s)) = true ->
      recomputedFrom evaluate (fst (Page.handle evaluate e s s))
                     (Page.graph (Page.dispatch evaluate e s)))
  /\ (forall s1,
        match e with
        | Page.RangeChange _ => True
        | Page.Pan _ _ => Page.isDragging (Page.pointer s) = true
        | Page.CustomFunctionInput text =>
            String.eqb (Page.customFunction (Page.inputs s))
                       (Page.customFunction (Page.inputs s1)) = false
        | _ => False
        end ->
        Page.depsChanged e s s1 = true).
Proof.
  split; [apply dispatch_progress|].
  split; [apply dispatch_running|].
  split; [apply dispatch_recomputes|].
  intros s1 H. unfold Page.depsChanged.
  destruct e; try contradiction.
  - rewrite H. reflexivity.
  - now rewrite orb_true_r.
  - rewrite H. now rewrite orb_true_r.
Qed.

(** The square function plotted on the custom tab, and the domain slider
    moved to [[-5, 5]]: the progress stays, and the stored curve is the one
    sampled over the new domain. *)
Lemma change_leaves_progress_witness :
  Page.animationProgress
    (Page.animation
       (Page.dispatch Toy.evaluate (Page.RangeChange (of_Z (-5), of_Z 5))
          Demo.plotted))
  = Page.animationProgress (Page.animation Demo.plotted)
  /\ recomputedFrom Toy.evaluate
       (Page.setViewRange (of_Z (-5), of_Z 5) Demo.plotted)
       (Page.graph
          (Page.dispatch Toy.evaluate (Page.RangeChange (of_Z (-5), of_Z 5))
             Demo.plotted)).
Proof.
  destruct (@change_leaves_progress Toy.evaluate
              (Page.RangeChange (of_Z (-5), of_Z 5)) Demo.plotted)
    as [A [_ [B C]]].
  split; [exact A|].
  apply B. apply C. exact I.
Defined.

(** What [trim] empties: a no-break space (U+00A0), an em space (U+2003)
    and a tab; and what it does not: a text with a letter in it, or with a
    zero-width space (U+200B). *)
Example blank_unicode_space :
  Page.blank (String (ascii_of_nat 194) (String (ascii_of_nat 160)
               (String (ascii_of_nat 226) (String (ascii_of_nat 128)
                 (String (ascii_of_nat 131) (String (ascii_of_nat 9)
                   EmptyString))))))
  = true.
Proof. reflexivity. Qed.

Example blank_rejects_text :
  Page.blank " x " = false
  /\ Page.blank (String (ascii_of_nat 226) (String (ascii_of_nat 128)
                   (String (ascii_of_nat 139) EmptyString)))
     = false.
Proof. split; reflexivity. Qed.

(** The recomputation [calculateDerivative] never raises and never reports
    an error: it stores the sampled curve with its derivative curve and
    clears the message; on the custom tab with a blank function (one that
    [trim] empties: white space and line terminators only) it empties both
    curves and leaves the message as it was. *)
Theorem recomputation_never_fails (evaluate : evaluator) (c s : Page.AppState) :
  snd (Page.calculateDerivative evaluate c s) = Ret tt
  /\ (let g := Page.graph (fst (Page.calculateDerivative evaluate c s)) in
      if blankCustom c
      then Page.points g = [] /\ Page.derivativePoints g = []
           /\ Page.errorMessage g = Page.errorMessage (Page.graph s)
      else exists funcPoints derPoints,
             sampledCurve evaluate c = Ret funcPoints
             /\ Page.derivativeCurve evaluate
                  (Page.customFunction (Page.inputs c)) funcPoints
                = Ret derPoints
             /\ Page.points g = funcPoints
             /\ Page.derivativePoints g = derPoints
             /\ Page.errorMessage g = EmptyString).
Proof. apply calculateDerivative_result. Qed.

(** An invariant of the stored curves, kept by every event: each stored
    point has a finite value below 100 in magnitude, and each point of the
    derivative curve sits at the abscissa of a point of the function
    curve. *)
Theorem curves_stay_consistent (evaluate : evaluator) (e : Page.event)
  (s : Page.AppState) :
  curvesConsistent s -> curvesConsistent (Page.dispatch evaluate e s).
Proof.
  intro H. unfold Page.dispatch.
  destruct (Page.depsChanged e s (fst (Page.handle evaluate e s s))).
  - apply calculateDerivative_consistent.
  - apply (@curvesConsistent_ext (fst (Page.handle evaluate e s s)));
      try (now rewrite startStop_graph).
    now apply handle_consistent.
Qed.

(** The first render has no curve; the square function typed into the
    custom tab gives consistent curves. *)
Lemma curves_stay_consistent_witness :
  curvesConsistent Demo.plotted.
Proof.
  unfold Demo.plotted.
  apply curves_stay_consistent. apply curves_stay_consistent.
  unfold curvesConsistent, allDisplayable.
  repeat split; intros pt H; destruct H.
Defined.

(** The warning about the custom function does not outlast the
    recomputation: once a text that differs from the previous one has been
    typed, the message is empty, whatever the text evaluates to, unless the
    tab is the custom one and the text is blank (white space and line
    terminators only, which [trim] empties). *)
Theorem typing_clears_the_message (evaluate : evaluator) (text : string)
  (s : Page.AppState) :
  String.eqb (Page.customFunction (Page.inputs s)) text = false ->
  (Page.tab_eqb (Page.activeTab (Page.inputs s)) Page.custom
   && Page.blank text)%bool = false ->
  Page.errorMessage
    (Page.graph (Page.dispatch evaluate (Page.CustomFunctionInput text) s))
  = EmptyString.
Proof.
  intros Hne Hnb. unfold Page.dispatch.
  set (s1 := fst (Page.handle evaluate (Page.CustomFunctionInput text) s s)).
  assert (I : Page.inputs s1
              = Page.mkInputs (Page.activeTab (Page.inputs s)) text
                              (Page.viewRange (Page.inputs s)))
    by apply handleCustomFunctionChange_inputs.
  assert (D : Page.depsChanged (Page.CustomFunctionInput text) s s1 = true).
  { unfold Page.depsChanged. rewrite I. cbn [Page.customFunction].
    rewrite Hne. reflexivity. }
  rewrite D.
  destruct (calculateDerivative_result evaluate s1 (Page.startStop s s1))
    as [_ R].
  cbv zeta in R. unfold blankCustom in R. rewrite I in R.
  cbn [Page.activeTab Page.customFunction] in R. rewrite Hnb in R.
  destruct R as [fp [dp [_ [_ [_ [_ R]]]]]]. exact R.
Qed.

(** On the custom tab, the undefined symbol [foo] typed into the empty
    text field: the handler sets the warning, the recomputation clears
    it. *)
Lemma typing_clears_the_message_witness :
  Page.errorMessage
    (Page.graph (fst (Page.handleCustomFunctionChange Toy.evaluate "foo"
                        Demo.customTab)))
  = "Warning: Function may be invalid"%string
  /\ Page.errorMessage
       (Page.graph (Page.dispatch Toy.evaluate (Page.CustomFunctionInput "foo")
                      Demo.customTab))
     = EmptyString.
Proof.
  split; [vm_compute; reflexivity|].
  apply typing_clears_the_message; reflexivity.
Defined.

(* ================================================================== *)
(** ** Zoom and reset *)

Section Zoom.

Import Page.
Local Open Scope Q_scope.

Variable evaluate : evaluator.

Lemma Math_min_Fin (a b : Q) :
  Math_min (Fin a) (Fin b) = Fin (if Qltb b a then b else a).
Proof. simpl. destruct (Qltb b a); reflexivity. Qed.

Lemma Math_max_Fin (a b : Q) :
  Math_max (Fin a) (Fin b) = Fin (if Qltb a b then b else a).
Proof. simpl. destruct (Qltb a b); reflexivity. Qed.

(** [Math.max(0.5, Math.min(5, v))] lies in [[0.5, 5]]. *)
Lemma clamp_in_bounds (v : Q) :
  exists z, Math_max (Fin (1 # 2)) (Math_min (of_Z 5) (Fin v)) = Fin z
            /\ 1 # 2 <= z <= 5.
Proof.
  unfold of_Z. rewrite Math_min_Fin, Math_max_Fin. eexists.
  split; [reflexivity|].
  destruct (Qltb v (inject_Z 5)) eqn:A;
    [apply Qltb_true in A | apply Qltb_false in A];
    match goal with
    | |- context [Qltb ?a ?b] =>
        destruct (Qltb a b) eqn:B;
        [apply Qltb_true in B | apply Qltb_false in B]
    end;
    change (inject_Z 5) with 5 in *; split; lra.
Qed.

(** The viewport after an event is the one its handler leaves. *)
Lemma dispatch_viewport (e : event) (s : AppState) :
  viewport (dispatch evaluate e s) = viewport (fst (handle evaluate e s s)).
Proof.
  unfold dispatch.
  destruct (depsChanged e s (fst (handle evaluate e s s)));
    [rewrite calculateDerivative_preserves_viewport|];
    apply startStop_viewport.
Qed.

Lemma dispatch_inputs (e : event) (s : AppState) :
  inputs (dispatch evaluate e s) = inputs (fst (handle evaluate e s s)).
Proof.
  unfold dispatch.
  destruct (depsChanged e s (fst (handle evaluate e s s)));
    [rewrite calculateDerivative_preserves_inputs|];
    apply startStop_inputs.
Qed.

(** Apart from the wheel, the zoom buttons and the reset, no handler
    writes the zoom level. *)
Lemma handle_preserves_zoom (e : event) (c : AppState) :
  match e with
  | Wheel _ | ZoomIn | ZoomOut | ResetView => True
  | _ => preserves (fun s => zoomLevel (viewport s)) (handle evaluate e c)
  end.
Proof.
  assert (R : preserves (fun s => zoomLevel (viewport s))
                        (calculateDerivative evaluate c)).
  { intro s0. cbv beta.
    now rewrite (calculateDerivative_preserves_viewport evaluate c s0). }
  destruct e; simpl; auto.
  - unfold handleTabChange. keeping. destruct (predefinedFunctions value); keeping.
  - unfold handleFunctionChange.
    destruct (findByName (activeTab (inputs c)) value); keeping.
  - unfold handleCustomFunctionChange. keeping.
  - unfold handleRangeChange. keeping.
  - apply handleMouseMove_preserves; reflexivity.
  - unfold handleMouseLeave. keeping.
  - unfold handleMouseDown. keeping.
  - unfold handleMouseUp. keeping.
  - apply handlePan_preserves; reflexivity.
  - unfold handleResize. keeping.
  - unfold toggleAnimation. keeping.
  - unfold changeSpeed. keeping.
Qed.

Lemma wheel_zoom (c s : AppState) (deltaY : jsnum) (z : Q) :
  zoomLevel (viewport c) = Fin z ->
  zoomInBounds (fst (handleWheel c deltaY s)).
Proof.
  intro Hz. unfold handleWheel, zoomInBounds, update. cbn [fst]. rewrite Hz.
  unfold setZoomLevel. cbn [viewport zoomLevel].
  destruct (jgt deltaY (of_Z 0)); apply clamp_in_bounds.
Qed.

Lemma zoomIn_zoom (s : AppState) :
  zoomInBounds s -> zoomInBounds (fst (handleZoomIn s)).
Proof.
  intros [z [Hz [L U]]]. unfold handleZoomIn, zoomInBounds, update.
  cbn [fst]. rewrite Hz. unfold setZoomLevel. cbn [viewport zoomLevel].
  unfold of_Z. cbn [jadd]. rewrite Math_min_Fin. eexists.
  split; [reflexivity|].
  destruct (Qltb (z + (1 # 4)) (inject_Z 5)) eqn:A;
    [apply Qltb_true in A | apply Qltb_false in A];
    change (inject_Z 5) with 5 in *; split; lra.
Qed.

Lemma zoomOut_zoom (s : AppState) :
  zoomInBounds s -> zoomInBounds (fst (handleZoomOut s)).
Proof.
  intros [z [Hz [L U]]]. unfold handleZoomOut, zoomInBounds, update.
  cbn [fst]. rewrite Hz. unfold setZoomLevel. cbn [viewport zoomLevel].
  unfold jsub. cbn [jneg jadd]. rewrite Math_max_Fin. eexists.
  split; [reflexivity|].
  destruct (Qltb (1 # 2) (z + - (1 # 4))) eqn:A;
    [apply Qltb_true in A | apply Qltb_false in A]; split; lra.
Qed.

End Zoom.

(** The zoom level stays in [[0.5, 5]] under every event; and a wheel event
    brings any finite zoom level into that interval. *)
Theorem zoom_stays_in_bounds (evaluate : evaluator) (s : Page.AppState) :
  (zoomInBounds s -> forall e, zoomInBounds (Page.dispatch evaluate e s))
  /\ (finite (Page.zoomLevel (Page.viewport s)) ->
      forall deltaY, zoomInBounds (Page.dispatch evaluate (Page.Wheel deltaY) s)).
Proof.
  assert (V : forall e s', Page.viewport s' = Page.viewport
                             (fst (Page.handle evaluate e s s)) ->
              zoomInBounds (fst (Page.handle evaluate e s s)) ->
              zoomInBounds s').
  { intros e s' E H. unfold zoomInBounds in *. now rewrite E. }
  split.
  - intros H e. apply (V e); [apply dispatch_viewport|].
    pose proof (handle_preserves_zoom evaluate e s) as P.
    destruct e; cbn [Page.handle] in *;
      try (unfold zoomInBounds, preserves in *; rewrite P; exact H).
    + destruct H as [z [Hz _]]. now apply wheel_zoom with z.
    + now apply zoomIn_zoom.
    + now apply zoomOut_zoom.
    + exists 1%Q. split; [reflexivity|]. split; discriminate.
  - intros [z Hz] deltaY. apply (V (Page.Wheel deltaY)); [apply dispatch_viewport|].
    cbn [Page.handle]. now apply wheel_zoom with z.
Qed.

(** Zooming in from the default view, and the wheel on it. *)
Lemma zoom_stays_in_bounds_witness :
  zoomInBounds (Page.dispatch Toy.evaluate Page.ZoomIn Demo.view)
  /\ zoomInBounds (Page.dispatch Toy.evaluate (Page.Wheel (of_Z 120)) Demo.view).
Proof.
  destruct (@zoom_stays_in_bounds Toy.evaluate Demo.view) as [A B].
  split.
  - apply A. exists 1%Q. split; [reflexivity|]. split; discriminate.
  - apply B. exists 1%Q. reflexivity.
Defined.

(** After a reset of the view the effective range is the base domain
    itself, whatever the zoom and the pan were before. *)
Theorem reset_shows_the_base_domain (evaluate : evaluator) (s : Page.AppState)
  (a b : Q) :
  Page.viewRange (Page.inputs s) = (Fin a, Fin b) ->
  exists lo hi,
    Page.getEffectiveViewRange (Page.dispatch evaluate Page.ResetView s)
    = (Fin lo, Fin hi)
    /\ lo == a /\ hi == b.
Proof.
  intro Hr. unfold Page.getEffectiveViewRange.
  rewrite dispatch_viewport, dispatch_inputs. simpl. rewrite Hr. simpl.
  do 2 eexists. split; [reflexivity|]. split; field.
Qed.

(** Zoomed in twice and then reset: the range is [[-10, 10]] again. *)
Lemma reset_shows_the_base_domain_witness :
  exists lo hi,
    Page.getEffectiveViewRange
      (Page.dispatch Toy.evaluate Page.ResetView
         (Page.dispatch Toy.evaluate Page.ZoomIn
            (Page.dispatch Toy.evaluate Page.ZoomIn Demo.view)))
    = (Fin lo, Fin hi)
    /\ lo == -10 /\ hi == 10.
Proof.
  apply reset_shows_the_base_domain.
  rewrite !dispatch_inputs. reflexivity.
Defined.

(* ================================================================== *)
(** ** The central difference *)

Section CentralDifference.

Local Open Scope Q_scope.

Variable evaluate : evaluator.

Lemma jsub_NaN_l (b : jsnum) : jsub NaN b = NaN.
Proof. reflexivity. Qed.

Lemma jsub_NaN_r (a : jsnum) : jsub a NaN = NaN.
Proof. destruct a; reflexivity. Qed.

Lemma jdiv_NaN_l (b : jsnum) : jdiv NaN b = NaN.
Proof. reflexivity. Qed.

Lemma safeEval_invalid (func : string) (xv : jsnum) :
  invalid_at evaluate func xv -> Page.safeEval evaluate func xv = Ret NaN.
Proof.
  intros [[e H] | H].
  - now apply safeEval_Throw with e.
  - now apply safeEval_Ret.
Qed.

End CentralDifference.

(** The central difference is invalid as soon as one of its two
    evaluations is: if the function raises or yields NaN at [x + h] or at
    [x - h], the result is NaN. *)
Theorem numericalDerivative_propagates_invalid (evaluate : evaluator)
  (func : string) (xv h : jsnum) :
  invalid_at evaluate func (jadd xv h) \/ invalid_at evaluate func (jsub xv h) ->
  Page.numericalDerivative evaluate func xv h = Ret NaN.
Proof.
  intro H. unfold Page.numericalDerivative.
  destruct (safeEval_returns evaluate func (jadd xv h)) as [a Ha].
  destruct (safeEval_returns evaluate func (jsub xv h)) as [b Hb].
  destruct H as [H | H]; apply safeEval_invalid in H.
  - rewrite H, Hb. cbn [bind]. now rewrite jsub_NaN_l.
  - rewrite Ha, H. cbn [bind]. now rewrite jsub_NaN_r.
Qed.

(** The text [0/x] at [x = -h]: the evaluation at [x + h = 0] is NaN. *)
Lemma numericalDerivative_propagates_invalid_witness :
  Page.numericalDerivative Toy.evaluate "0/x" (Fin (- (1 # 10000))) Page.default_h
  = Ret NaN.
Proof.
  apply numericalDerivative_propagates_invalid.
  left. right. reflexivity.
Defined.

(** The central difference is exact on polynomials of degree at most two:
    if the function evaluates to [a x^2 + b x + c] at every finite [x],
    the result at [x] is [2 a x + b], for every step [h] other than 0. *)
Theorem numericalDerivative_exact_on_quadratics (evaluate : evaluator)
  (func : string) (a b c xv h : Q) :
  (forall t, exists v, evaluate func (Fin t) = Ret (Fin v)
                       /\ v == a * t * t + b * t + c) ->
  ~ h == 0 ->
  exists q, Page.numericalDerivative evaluate func (Fin xv) (Fin h) = Ret (Fin q)
            /\ q == 2 * a * xv + b.
Proof.
  intros Hf Hh. unfold Page.numericalDerivative.
  destruct (Hf (xv + h)) as [u [Hu Eu]].
  destruct (Hf (xv + - h)) as [w [Hw Ew]].
  cbn [jadd jsub jneg].
  rewrite (safeEval_Ret evaluate _ _ Hu), (safeEval_Ret evaluate _ _ Hw).
  cbn [bind jadd jsub jneg jmul of_Z].
  assert (N : ~ inject_Z 2 * h == 0).
  { intro Z. apply Hh. change (inject_Z 2) with 2 in Z. lra. }
  rewrite jdiv_Fin by exact N.
  eexists. split; [reflexivity|].
  rewrite Eu, Ew. change (inject_Z 2) with 2. field. exact Hh.
Qed.

(** The square function at 3 with the default step: the slope is 6. *)
Lemma numericalDerivative_exact_on_quadratics_witness :
  exists q, Page.numericalDerivative Toy.evaluate "x * x" (Fin 3)
              (Fin (1 # 10000)) = Ret (Fin q)
            /\ q == 2 * 1 * 3 + 0.
Proof.
  apply (@numericalDerivative_exact_on_quadratics Toy.evaluate "x * x"
           1 0 0 3 (1 # 10000)).
  - intro t. exists (t * t). split; [reflexivity|]. ring.
  - discriminate.
Defined.

(* ================================================================== *)
(** ** Order of the samples *)

Section GridOrder.

Local Open Scope Q_scope.

Lemma inject_nat_nonzero (n : nat) :
  (0 < n)%nat -> ~ inject_Z (Z.of_nat n) == 0.
Proof.
  intros Hn Z. pose proof (inject_Z_injective (Z.of_nat n) 0) as I.
  change (inject_Z 0) with 0 in I. apply I in Z. lia.
Qed.

Lemma inject_nat_positive (n : nat) :
  (0 < n)%nat -> 0 < inject_Z (Z.of_nat n).
Proof.
  intro Hn. change 0 with (inject_Z 0). rewrite <- Zlt_Qlt. lia.
Qed.

Lemma step_positive (lo hi : Q) (n : nat) :
  lo < hi -> (0 < n)%nat -> 0 < (hi - lo) / inject_Z (Z.of_nat n).
Proof.
  intros Hlo Hn. unfold Qdiv. apply Qmult_lt_0_compat; [lra|].
  apply Qinv_lt_0_compat. now apply inject_nat_positive.
Qed.

Lemma gridQ_increasing (lo hi : Q) (n i j : nat) :
  lo < hi -> (0 < n)%nat -> (i < j)%nat -> gridQ lo hi n i < gridQ lo hi n j.
Proof.
  intros Hlo Hn Hij. unfold gridQ.
  pose proof (step_positive Hlo Hn) as P.
  assert (inject_Z (Z.of_nat i) < inject_Z (Z.of_nat j))
    by (rewrite <- Zlt_Qlt; lia).
  nra.
Qed.

Lemma gridQ_in_range (lo hi : Q) (n i : nat) :
  lo < hi -> (0 < n)%nat -> (i <= n)%nat ->
  lo <= gridQ lo hi n i <= hi.
Proof.
  intros Hlo Hn Hi. unfold gridQ.
  pose proof (step_positive Hlo Hn) as P.
  pose proof (inject_nat_positive Hn) as N.
  assert (I0 : 0 <= inject_Z (Z.of_nat i))
    by (change 0 with (inject_Z 0); rewrite <- Zle_Qle; lia).
  assert (I1 : inject_Z (Z.of_nat i) <= inject_Z (Z.of_nat n))
    by (rewrite <- Zle_Qle; lia).
  assert (E : inject_Z (Z.of_nat n) * ((hi - lo) / inject_Z (Z.of_nat n))
              == hi - lo).
  { field. intro Z. rewrite Z in N. discriminate. }
  split; nra.
Qed.

(** The grid abscissa computed by the two samplers, on a finite range. *)
Lemma grid_Fin (lo hi : Q) (n i : nat) :
  (0 < n)%nat ->
  jadd (Fin lo) (jmul (of_nat i) (jdiv (jsub (Fin hi) (Fin lo)) (of_nat n)))
  = Fin (gridQ lo hi n i).
Proof.
  intro Hn. unfold of_nat, of_Z. cbn [jsub jneg jadd].
  rewrite jdiv_Fin by now apply inject_nat_nonzero.
  reflexivity.
Qed.

Variable A : Type.
Variable key : A -> jsnum.
Variable f : nat -> list A.
Variable G : nat -> Q.

Hypothesis f_key : forall i a, In a (f i) -> key a = Fin (G i).
Hypothesis f_short : forall i, (List.length (f i) <= 1)%nat.
Hypothesis G_increasing : forall i j, (i < j)%nat -> G i < G j.

(** Contributions of at most one element each, keyed by an increasing
    grid, concatenate into a strictly ascending list. *)
Lemma flat_map_seq_ascending (len : nat) :
  forall start,
    StronglySorted (fun a b => jlt (key a) (key b) = true)
                   (flat_map f (seq start len)).
Proof.
  induction len as [|len IH]; intro start; cbn [seq flat_map].
  - constructor.
  - specialize (IH (S start)).
    pose proof (f_short start) as Hs. pose proof (f_key start) as Hk.
    destruct (f start) as [|a [|b rest]]; cbn [app].
    + exact IH.
    + constructor; [exact IH|].
      apply Forall_forall. intros b Hb.
      apply in_flat_map in Hb. destruct Hb as [j [Hj Hb]].
      apply in_seq in Hj.
      rewrite (Hk a (or_introl eq_refl)), (f_key j b Hb).
      cbn [jlt]. apply Qltb_true. apply G_increasing. lia.
    + simpl in Hs. lia.
Qed.

Lemma flat_map_short (l : list nat) :
  (List.length (flat_map f l) <= List.length l)%nat.
Proof.
  induction l as [|i l IH]; cbn [flat_map]; [simpl; lia|].
  rewrite length_app. pose proof (f_short i). cbn [List.length]. lia.
Qed.

End GridOrder.

Lemma StronglySorted_map {A B} (R : B -> B -> Prop) (g : A -> B) (l : list A) :
  StronglySorted (fun a b => R (g a) (g b)) l -> StronglySorted R (map g l).
Proof.
  induction 1 as [|a l Hl IH Ha]; cbn [map]; constructor; auto.
  apply Forall_forall. intros b Hb. apply in_map_iff in Hb.
  destruct Hb as [b0 [<- Hb0]]. rewrite Forall_forall in Ha. now apply Ha.
Qed.

Section SamplerOrder.

Local Open Scope Q_scope.

Variable evaluate : evaluator.

Lemma pointAt_x (func : string) (lo hi : Q) (n i : nat) (pt : Page.Point) :
  (0 < n)%nat ->
  In pt (pointAt evaluate func (Fin lo, Fin hi) n i) ->
  Page.x pt = Fin (gridQ lo hi n i).
Proof.
  intros Hn. unfold pointAt. cbn [fst snd]. rewrite grid_Fin by exact Hn.
  destruct (Page.safeEval evaluate func (Fin (gridQ lo hi n i))) as [yv|e];
    [|intros []].
  destruct (Page.displayable yv); [|intros []].
  intros [<- | []]. reflexivity.
Qed.

Lemma pointAt_short (func : string) (range : jsnum * jsnum) (n i : nat) :
  (List.length (pointAt evaluate func range n i) <= 1)%nat.
Proof.
  unfold pointAt. destruct (Page.safeEval evaluate func _) as [yv|e]; [|simpl; lia].
  destruct (Page.displayable yv); simpl; lia.
Qed.

Lemma rowAt_short (p : DerivativeGraph.Props) (line : jsnum * jsnum) (i : nat) :
  (List.length (rowAt evaluate p line i) <= 1)%nat.
Proof.
  unfold rowAt.
  destruct (DerivativeGraph.samplePoint evaluate p (fst line) (snd line)
              (DerivativeGraph.gridX p i)) as [[smp|]|e]; simpl; lia.
Qed.

Lemma rowAt_x (p : DerivativeGraph.Props) (line : jsnum * jsnum) (lo hi : Q)
  (i : nat) (smp : DerivativeGraph.Sample) :
  DerivativeGraph.domain p = (Fin lo, Fin hi) ->
  In smp (rowAt evaluate p line i) ->
  DerivativeGraph.x smp = Fin (gridQ lo hi DerivativeGraph.points i).
Proof.
  intros Hd Hin. apply rowAt_In in Hin.
  destruct (@samplePoint_retained evaluate p _ _ _ _ Hin)
    as [yv [_ [_ [Hx _]]]].
  rewrite Hx. unfold DerivativeGraph.gridX. rewrite Hd. cbn [fst snd].
  apply grid_Fin. unfold DerivativeGraph.points. lia.
Qed.

End SamplerOrder.

(** Order, size and bounds of the curve of [calculatePoints]. *)
Lemma calculatePoints_order (evaluate : evaluator) (func : string)
  (lo hi : Q) (n : nat) (pts : list Page.Point) :
  lo < hi -> (0 < n)%nat ->
  Page.calculatePoints evaluate func (Fin lo, Fin hi) n = Ret pts ->
  ascending (map Page.x pts)
  /\ (List.length pts <= S n)%nat
  /\ (forall pt, In pt pts -> exists q, Page.x pt = Fin q /\ lo <= q <= hi).
Proof.
  intros Hlo Hn E. rewrite calculatePoints_rows in E.
  assert (Epts : pts = flat_map (pointAt evaluate func (Fin lo, Fin hi) n)
                                (upto n)) by congruence.
  rewrite Epts. unfold upto. split; [|split].
  - apply StronglySorted_map.
    apply (@flat_map_seq_ascending _ Page.x
             (pointAt evaluate func (Fin lo, Fin hi) n) (gridQ lo hi n)).
    + intros i a Ha. now apply (@pointAt_x evaluate func lo hi n i a Hn).
    + intro i. apply pointAt_short.
    + intros i j Hij. now apply gridQ_increasing.
  - etransitivity; [apply flat_map_short; intro i; apply pointAt_short|].
    now rewrite length_seq.
  - intros pt Hin. apply in_flat_map in Hin. destruct Hin as [i [Hi Hin]].
    apply in_seq in Hi. exists (gridQ lo hi n i).
    split; [now apply (@pointAt_x evaluate func lo hi n i pt Hn)|].
    apply gridQ_in_range; try assumption. lia.
Qed.

(** In exact arithmetic (the abscissas [lo + i * step] without rounding),
    the curve [calculatePoints] returns for a range [lo < hi] and at least
    one interval is strictly ascending in [x], has at most one point per
    grid point, and stays inside the range. *)
Theorem sampled_points_ascend (evaluate : evaluator) (func : string)
  (lo hi : Q) (n : nat) (pts : list Page.Point) :
  lo < hi -> (0 < n)%nat ->
  Page.calculatePoints evaluate func (Fin lo, Fin hi) n = Ret pts ->
  ascending (map Page.x pts)
  /\ (List.length pts <= S n)%nat
  /\ (forall pt, In pt pts -> exists q, Page.x pt = Fin q /\ lo <= q <= hi).
Proof. apply calculatePoints_order. Qed.

(** The square function over [[-10, 10]] with 500 intervals. *)
Lemma sampled_points_ascend_witness :
  ascending (map Page.x
               (valueOr [] (Page.calculatePoints Toy.evaluate "x * x"
                              (Fin (-10), Fin 10) 500)))
  /\ (List.length (valueOr [] (Page.calculatePoints Toy.evaluate "x * x"
                                 (Fin (-10), Fin 10) 500)) <= 501)%nat.
Proof.
  destruct (@sampled_points_ascend Toy.evaluate "x * x" (-10) 10 500%nat
              (valueOr [] (Page.calculatePoints Toy.evaluate "x * x"
                             (Fin (-10), Fin 10) 500)))
    as [A [L _]].
  - reflexivity.
  - lia.
  - vm_compute. reflexivity.
  - split; [exact A | exact L].
Defined.

(** In exact arithmetic (the abscissas [lo + i * step] without rounding),
    the rows of the chart data for a domain [lo < hi] are strictly
    ascending in [x], at most 1001, and inside the domain. *)
Theorem chart_rows_ascend (evaluate : evaluator) (p : DerivativeGraph.Props)
  (lo hi : Q) (rows : list DerivativeGraph.Sample) :
  DerivativeGraph.domain p = (Fin lo, Fin hi) ->
  lo < hi ->
  DerivativeGraph.newData evaluate p = Ret rows ->
  ascending (map DerivativeGraph.x rows)
  /\ (List.length rows <= 1001)%nat
  /\ (forall smp, In smp rows ->
        exists q, DerivativeGraph.x smp = Fin q /\ lo <= q <= hi).
Proof.
  intros Hd Hlo E.
  destruct (@newData_rows evaluate p rows E) as [line [_ Hrows]].
  assert (Hn : (0 < DerivativeGraph.points)%nat)
    by (unfold DerivativeGraph.points; lia).
  rewrite Hrows. unfold upto. split; [|split].
  - apply StronglySorted_map.
    apply (@flat_map_seq_ascending _ DerivativeGraph.x
             (rowAt evaluate p line) (gridQ lo hi DerivativeGraph.points)).
    + intros i a Ha. now apply (@rowAt_x evaluate p line lo hi i a Hd).
    + intro i. apply rowAt_short.
    + intros i j Hij. now apply gridQ_increasing.
  - etransitivity; [apply flat_map_short; intro i; apply rowAt_short|].
    rewrite length_seq. unfold DerivativeGraph.points. lia.
  - intros smp Hin. apply in_flat_map in Hin. destruct Hin as [i [Hi Hin]].
    apply in_seq in Hi. exists (gridQ lo hi DerivativeGraph.points i).
    split; [now apply (@rowAt_x evaluate p line lo hi i smp Hd)|].
    apply gridQ_in_range; try assumption. lia.
Qed.

(** The square function with derivative [2 * x] on [[-1, 1]]. *)
Lemma chart_rows_ascend_witness :
  ascending (map DerivativeGraph.x (Demo.rowsOf Demo.square))
  /\ (List.length (Demo.rowsOf Demo.square) <= 1001)%nat.
Proof.
  destruct (@chart_rows_ascend Toy.evaluate Demo.square (-1) 1
              (Demo.rowsOf Demo.square)) as [A [L _]].
  - reflexivity.
  - reflexivity.
  - vm_compute. reflexivity.
  - split; [exact A | exact L].
Defined.

(* ================================================================== *)
(** ** The pointer *)

Section PointerArea.

Import Page.
Local Open Scope Q_scope.

Variable s : AppState.
Variables lo hi w : Q.
Hypothesis Heff : getEffectiveViewRange s = (Fin lo, Fin hi).
Hypothesis Hwidth : svgWidth (viewport s) = Fin w.
Hypothesis Hlo : lo < hi.
Hypothesis Hw : 80 < w.








End PointerArea.





(* ================================================================== *)
(** ** Dragging *)

Section Drag.

Import Page.
Local Open Scope Q_scope.

Variable c : AppState.
Variables lo hi w : Q.
Hypothesis Heff : getEffectiveViewRange c = (Fin lo, Fin hi).
Hypothesis Hwidth : svgWidth (viewport c) = Fin w.
Hypothesis Hlo : lo < hi.
Hypothesis Hw : ~ w == 80.

Lemma panScale_nonzero : ~ (w - inject_Z 80) / (hi - lo) == 0.
Proof.
  intro Z. apply Hw.
  assert (N : ~ hi - lo == 0) by lra.
  assert (E : w - inject_Z 80 == (w - inject_Z 80) / (hi - lo) * (hi - lo))
    by (field; exact N).
  rewrite Z in E. change (inject_Z 80) with 80 in E. lra.
Qed.

(** One pointer move while dragging. *)
Lemma handlePan_step (s : AppState) (mx my px py x1 y1 : Q) :
  isDragging (pointer s) = true ->
  lastMousePos (pointer s) = mkPoint (Fin mx) (Fin my) ->
  panOffset (viewport s) = mkPoint (Fin px) (Fin py) ->
  let s1 := fst (handlePan c (Fin x1) (Fin y1) s) in
  isDragging (pointer s1) = true
  /\ lastMousePos (pointer s1) = mkPoint (Fin x1) (Fin y1)
  /\ panOffset (viewport s1)
     = mkPoint (Fin (px - (x1 - mx) / ((w - inject_Z 80) / (hi - lo))))
               (Fin (py + (y1 - my))).
Proof.
  intros Hd Hl Hp. unfold handlePan. rewrite Hd. cbn [negb].
  unfold andThen, update. cbn [fst snd].
  split; [exact Hd|]. split; [reflexivity|].
  cbn [setLastMousePos setPanOffset viewport panOffset].
  rewrite Hp, Hl, Heff, Hwidth. cbn [x y fst snd jsub jneg jadd of_Z].
  assert (N : ~ hi + - lo == 0) by lra.
  rewrite (jdiv_Fin (w + - inject_Z 80) N).
  rewrite jdiv_Fin by exact panScale_nonzero.
  reflexivity.
Qed.

End Drag.

(** Dragging the pointer away and back to where the button was pressed
    restores the pan offset; on the way, the horizontal offset moves by the
    pixel distance over the scale of the closure and the vertical offset
    by the pixel distance itself. *)
Theorem drag_there_and_back (c s : Page.AppState)
  (lo hi w mx my px py x1 y1 : Q) :
  Page.getEffectiveViewRange c = (Fin lo, Fin hi) ->
  Page.svgWidth (Page.viewport c) = Fin w ->
  lo < hi -> ~ w == 80 ->
  Page.isDragging (Page.pointer s) = true ->
  Page.lastMousePos (Page.pointer s) = Page.mkPoint (Fin mx) (Fin my) ->
  Page.panOffset (Page.viewport s) = Page.mkPoint (Fin px) (Fin py) ->
  let s1 := fst (Page.handlePan c (Fin x1) (Fin y1) s) in
  let s2 := fst (Page.handlePan c (Fin mx) (Fin my) s1) in
  (exists qx qy,
     Page.panOffset (Page.viewport s1) = Page.mkPoint (Fin qx) (Fin qy)
     /\ qx == px - (x1 - mx) * (hi - lo) / (w - 80)
     /\ qy == py + (y1 - my))
  /\ (exists qx qy,
        Page.panOffset (Page.viewport s2) = Page.mkPoint (Fin qx) (Fin qy)
        /\ qx == px /\ qy == py)
  /\ Page.lastMousePos (Page.pointer s2) = Page.mkPoint (Fin mx) (Fin my).
Proof.
  intros Heff Hwd Hlo Hw Hd Hl Hp s1 s2.
  destruct (@handlePan_step c lo hi w Heff Hwd Hlo Hw s mx my px py x1 y1
              Hd Hl Hp) as [D1 [L1 P1]].
  fold s1 in D1, L1, P1.
  destruct (@handlePan_step c lo hi w Heff Hwd Hlo Hw s1 x1 y1 _ _ mx my
              D1 L1 P1) as [D2 [L2 P2]].
  fold s2 in D2, L2, P2.
  assert (N1 : ~ hi - lo == 0) by lra.
  assert (N2 : ~ w - 80 == 0) by lra.
  split; [|split].
  - do 2 eexists. split; [exact P1|].
    change (inject_Z 80) with 80. split; [field; split; assumption | ring].
  - do 2 eexists. split; [exact P2|].
    change (inject_Z 80) with 80. split; [field; split; assumption | ring].
  - exact L2.
Qed.

(** The closure of the first render (width 0, range [[-10, 10]]): the
    button pressed at (100, 100), the pointer moved to (150, 120) and
    back. *)
Lemma drag_there_and_back_witness :
  (exists qx qy,
     Page.panOffset
       (Page.viewport (fst (Page.handlePan Page.initial (Fin 150) (Fin 120)
                              Demo.pressed)))
     = Page.mkPoint (Fin qx) (Fin qy)
     /\ qx == 0 - (150 - 100) * ((40 # 4) - (-40 # 4)) / (0 - 80)
     /\ qy == 0 + (120 - 100))
  /\ (exists qx qy,
        Page.panOffset
          (Page.viewport
             (fst (Page.handlePan Page.initial (Fin 100) (Fin 100)
                     (fst (Page.handlePan Page.initial (Fin 150) (Fin 120)
                             Demo.pressed)))))
        = Page.mkPoint (Fin qx) (Fin qy)
        /\ qx == 0 /\ qy == 0)
  /\ Page.lastMousePos
       (Page.pointer
          (fst (Page.handlePan Page.initial (Fin 100) (Fin 100)
                  (fst (Page.handlePan Page.initial (Fin 150) (Fin 120)
                          Demo.pressed)))))
     = Page.mkPoint (Fin 100) (Fin 100).
Proof.
  apply (@drag_there_and_back Page.initial Demo.pressed
           (-40 # 4) (40 # 4) 0 100 100 0 0 150 120);
    try reflexivity; discriminate.
Defined.

(* ================================================================== *)
(** ** Frames in sequence *)

Section FrameSequence.

Import Page.
Local Open Scope Q_scope.

Variable c : AppState.
Variable v : Q.
Hypothesis Hspeed : animationSpeed (animation c) = Fin v.
Hypothesis Vpos : 0 < v.

(** A frame that does not pass 1, from a state whose last timestamp [t0]
    is set. *)
Lemma animate_step (s : AppState) (t0 t p : Q) :
  animationRef (animation s) = Some (Fin t0) ->
  ~ t0 == 0 ->
  animationProgress (animation s) = Fin p ->
  p + (t - t0) / (inject_Z 5000 / v) <= 1 ->
  let s1 := fst (animate c (Fin t) s) in
  animationRef (animation s1) = Some (Fin t)
  /\ animationProgress (animation s1)
     = Fin (p + (t - t0) / (inject_Z 5000 / v)).
Proof.
  intros Hr Ht0 Hp Hle s1. split; [reflexivity|].
  subst s1. rewrite animate_progress, Hspeed, Hp.
  unfold elapsedAt. rewrite Hr. cbn [ref_or truthy].
  apply Qis_zero_false in Ht0. rewrite Ht0. cbn [negb jsub jneg jadd].
  rewrite nextProgress_Fin by exact Vpos.
  match goal with
  | |- context [Qltb ?a ?b] =>
      assert (W : Qltb a b = false) by (apply Qltb_false; exact Hle);
      rewrite W
  end.
  reflexivity.
Qed.

(** The first frame after a start, when no timestamp is set. *)
Lemma animate_first (s : AppState) (t p : Q) :
  animationRef (animation s) = None ->
  animationProgress (animation s) = Fin p ->
  p <= 1 ->
  let s1 := fst (animate c (Fin t) s) in
  animationRef (animation s1) = Some (Fin t)
  /\ exists q, animationProgress (animation s1) = Fin q /\ q == p.
Proof.
  intros Hr Hp Hle s1. split; [reflexivity|].
  subst s1. rewrite animate_progress, Hspeed, Hp.
  unfold elapsedAt. rewrite Hr. cbn [ref_or jsub jneg jadd].
  rewrite nextProgress_Fin by exact Vpos.
  pose proof (period_positive Vpos) as P.
  assert (E : p + (t + - t) / (inject_Z 5000 / v) == p).
  { assert (Z0 : t + - t == 0) by ring. rewrite Z0. unfold Qdiv. ring. }
  assert (W : Qltb (inject_Z 1) (p + (t + - t) / (inject_Z 5000 / v)) = false).
  { apply Qltb_false. rewrite E. exact Hle. }
  rewrite W. eexists. split; [reflexivity | exact E].
Qed.

End FrameSequence.

(** The first frame after a start only records its timestamp: the progress
    keeps its value. *)
Theorem first_frame_keeps_progress (c s : Page.AppState) (v t p : Q) :
  Page.animationSpeed (Page.animation c) = Fin v ->
  0 < v ->
  Page.animationRef (Page.animation s) = None ->
  Page.animationProgress (Page.animation s) = Fin p ->
  p <= 1 ->
  Page.animationRef (Page.animation (fst (Page.animate c (Fin t) s)))
  = Some (Fin t)
  /\ exists q,
       Page.animationProgress (Page.animation (fst (Page.animate c (Fin t) s)))
       = Fin q
       /\ q == p.
Proof.
  intros Hv Vpos Hr Hp Hle.
  exact (@animate_first c v Hv Vpos s t p Hr Hp Hle).
Qed.

(** The first frame of the default view, at 1000 ms. *)
Lemma first_frame_keeps_progress_witness :
  Page.animationRef
    (Page.animation (fst (Page.animate Demo.view (Fin 1000) Demo.view)))
  = Some (Fin 1000)
  /\ exists q,
       Page.animationProgress
         (Page.animation (fst (Page.animate Demo.view (Fin 1000) Demo.view)))
       = Fin q
       /\ q == 0.
Proof.
  apply (@first_frame_keeps_progress Demo.view Demo.view 1 1000 0);
    try reflexivity; discriminate.
Defined.

(** In exact arithmetic, the progress does not depend on the frame rate:
    while it does not pass 1, two frames in a row leave the progress one
    frame at the later time would leave, the initial progress plus the
    elapsed time over the period. *)
Theorem frames_add_up (c s : Page.AppState) (v t0 t1 t2 p : Q) :
  Page.animationSpeed (Page.animation c) = Fin v ->
  0 < v ->
  Page.animationRef (Page.animation s) = Some (Fin t0) ->
  Page.animationProgress (Page.animation s) = Fin p ->
  0 < t0 -> t0 <= t1 -> t1 <= t2 ->
  p + (t2 - t0) / (inject_Z 5000 / v) <= 1 ->
  let twice := fst (Page.animate c (Fin t2) (fst (Page.animate c (Fin t1) s))) in
  let once := fst (Page.animate c (Fin t2) s) in
  exists q q',
    Page.animationProgress (Page.animation twice) = Fin q
    /\ Page.animationProgress (Page.animation once) = Fin q'
    /\ q == q'
    /\ q' == p + (t2 - t0) * v / 5000.
Proof.
  intros Hv Vpos Hr Hp T0 T1 T2 Hle twice once.
  pose proof (period_positive Vpos) as P.
  assert (R : 0 < / (inject_Z 5000 / v)) by now apply Qinv_lt_0_compat.
  assert (N0 : ~ t0 == 0) by lra.
  assert (N1 : ~ t1 == 0) by lra.
  assert (M : forall a b, a <= b ->
              a / (inject_Z 5000 / v) <= b / (inject_Z 5000 / v)).
  { intros a b Hab. set (period := inject_Z 5000 / v) in *.
    unfold Qdiv. nra. }
  assert (Hle1 : p + (t1 - t0) / (inject_Z 5000 / v) <= 1).
  { pose proof (M (t1 - t0) (t2 - t0) ltac:(lra)). lra. }
  destruct (@animate_step c v Hv Vpos s t0 t1 p Hr N0 Hp Hle1) as [R1 P1].
  assert (Hle2 : p + (t1 - t0) / (inject_Z 5000 / v)
                 + (t2 - t1) / (inject_Z 5000 / v) <= 1).
  { assert (E : (t1 - t0) / (inject_Z 5000 / v)
                + (t2 - t1) / (inject_Z 5000 / v)
                == (t2 - t0) / (inject_Z 5000 / v)).
    { set (period := inject_Z 5000 / v) in *. unfold Qdiv. ring. }
    lra. }
  destruct (@animate_step c v Hv Vpos _ t1 t2 _ R1 N1 P1 Hle2) as [_ P2].
  destruct (@animate_step c v Hv Vpos s t0 t2 p Hr N0 Hp Hle) as [_ P3].
  do 2 eexists. split; [exact P2|]. split; [exact P3|].
  assert (Nv : ~ v == 0) by lra.
  change (inject_Z 5000) with 5000.
  split; field; exact Nv.
Qed.

(** Frames at 1000, 2000 and 3500 ms at speed 1: the same progress as
    frames at 1000 and 3500 ms. *)
Lemma frames_add_up_witness :
  exists q q',
    Page.animationProgress
      (Page.animation
         (fst (Page.animate Demo.view (Fin 3500)
                 (fst (Page.animate Demo.view (Fin 2000)
                         (fst (Page.animate Demo.view (Fin 1000) Demo.view)))))))
    = Fin q
    /\ Page.animationProgress
         (Page.animation
            (fst (Page.animate Demo.view (Fin 3500)
                    (fst (Page.animate Demo.view (Fin 1000) Demo.view)))))
       = Fin q'
    /\ q == q'
    /\ q' == (0 # 5000) + (3500 - 1000) * 1 / 5000.
Proof.
  apply (@frames_add_up Demo.view
           (fst (Page.animate Demo.view (Fin 1000) Demo.view))
           1 1000 2000 3500 (0 # 5000));
    try reflexivity; discriminate.
Defined.

(* ================================================================== *)
(** ** The visualizer and its chart *)

Section VisualizerFacts.

Import Visualizer.

Lemma currentExample_defined (s : State) :
  exists ex, currentExample s = Some ex
             /\ In ex (examples (activeTab s))
             /\ DerivativeGraph.nonempty (f ex) = true.
Proof.
  unfold currentExample.
  destruct (activeTab s); destruct (selectedExample s) as [|[|[|n]]];
    cbn; eexists; (split; [reflexivity|]); split; auto 6.
Qed.

End VisualizerFacts.

(** The chart never receives an empty function from the visualizer: the
    props always exist and carry the custom function or, when that is
    empty, the function of an example of the active tab; so [generateData]
    never takes its branch that clears the data. *)
Theorem chart_always_gets_a_function (s : Visualizer.State) :
  exists p,
    Visualizer.graphProps s = Ret p
    /\ DerivativeGraph.nonempty (DerivativeGraph.func p) = true
    /\ DerivativeGraph.domain p = Visualizer.domain s
    /\ DerivativeGraph.tangentPoint p = Visualizer.tangentPoint s
    /\ forall evaluate g,
         DerivativeGraph.generateData evaluate p g
         = match DerivativeGraph.newData evaluate p with
           | Ret rows => DerivativeGraph.mkState rows false ""
           | Throw _ =>
               DerivativeGraph.mkState (DerivativeGraph.data g) false
                 "Error generating graph data"
           end.
Proof.
  destruct (currentExample_defined s) as [ex [E [_ N]]].
  unfold Visualizer.graphProps. rewrite E.
  eexists. split; [reflexivity|].
  assert (F : DerivativeGraph.nonempty
                (if DerivativeGraph.nonempty (Visualizer.customFunction s)
                 then Visualizer.customFunction s else Visualizer.f ex) = true).
  { destruct (DerivativeGraph.nonempty (Visualizer.customFunction s)) eqn:C;
      assumption. }
  split; [exact F|]. split; [reflexivity|]. split; [reflexivity|].
  intros evaluate g. unfold DerivativeGraph.generateData.
  cbn [DerivativeGraph.func]. rewrite F. reflexivity.
Qed.

(** Clicking an example sets the tangent point to half the lower end of
    the example's domain whenever that end is not 0, whatever the upper
    end, and to 5 when the example has no domain of its own; it is the
    middle of the domain, which the effect on a tab change computes, only
    when the upper end is 0. *)
Theorem example_click_tangent_point (idx : nat) (ex : Visualizer.DerivativeExample)
  (s : Visualizer.State) :
  (Visualizer.defaultDomain ex = None ->
   Visualizer.tangentPoint (Visualizer.selectExample idx ex s)
   = Fin (inject_Z 10 / inject_Z 2)
   /\ Visualizer.domain (Visualizer.selectExample idx ex s)
      = (of_Z (-10), of_Z 10))
  /\ (forall a b : Q,
        Visualizer.defaultDomain ex = Some (Fin a, Fin b) ->
        ~ a == 0 ->
        Visualizer.tangentPoint (Visualizer.selectExample idx ex s)
        = Fin (a / inject_Z 2)
        /\ Visualizer.domain (Visualizer.selectExample idx ex s) = (Fin a, Fin b)
        /\ (same (Visualizer.tangentPoint (Visualizer.selectExample idx ex s))
                 (jdiv (jadd (Fin a) (Fin b)) (of_Z 2))
            <-> b == 0)).
Proof.
  split.
  - intro H. unfold Visualizer.selectExample. rewrite H. split; reflexivity.
  - intros a b H Ha. unfold Visualizer.selectExample. rewrite H.
    cbn [option_map fst snd Visualizer.orElse Visualizer.tangentPoint
         Visualizer.domain Visualizer.domainOrDefault truthy].
    apply Qis_zero_false in Ha. rewrite Ha. cbn [negb truthy]. rewrite Ha.
    cbn [negb]. split; [reflexivity|]. split; [reflexivity|].
    simpl. split; intro E.
    + assert (E2 : a / inject_Z 2 * inject_Z 2 == (a + b) / inject_Z 2 * inject_Z 2)
        by now rewrite E.
      change (inject_Z 2) with 2 in E2. field_simplify in E2. lra.
    + rewrite E. change (inject_Z 2) with 2. field.
Qed.

(** The example Sine, whose domain is [[-2 pi, 2 pi]]: the tangent point
    becomes [-pi], not the middle 0. *)
Lemma example_click_tangent_point_witness :
  Visualizer.tangentPoint
    (Visualizer.selectExample 0
       (Visualizer.mkExample "Sine" "sin(x)" "cos(x)"
          "The derivative of sin(x) is cos(x)" (Some Visualizer.twoPi))
       Visualizer.initial)
  = Fin (inject_Z (-2) * (884279719003555 # 281474976710656) / inject_Z 2).
Proof.
  destruct (@example_click_tangent_point 0
              (Visualizer.mkExample "Sine" "sin(x)" "cos(x)"
                 "The derivative of sin(x) is cos(x)" (Some Visualizer.twoPi))
              Visualizer.initial) as [_ H].
  destruct (H (inject_Z (-2) * (884279719003555 # 281474976710656))
              (inject_Z 2 * (884279719003555 # 281474976710656)))
    as [T _].
  - reflexivity.
  - discriminate.
  - exact T.
Defined.

(* ================================================================== *)
(** ** Zooming in and out *)

Section ZoomButtons.

Import Page.
Local Open Scope Q_scope.

Variable evaluate : evaluator.

Lemma zoomIn_value (s : AppState) (z : Q) :
  zoomLevel (viewport s) = Fin z ->
  zoomLevel (viewport (dispatch evaluate ZoomIn s))
  = Fin (if Qltb (z + (1 # 4)) (inject_Z 5) then z + (1 # 4) else inject_Z 5).
Proof.
  intro Hz. rewrite dispatch_viewport. cbn [handle].
  unfold handleZoomIn, update. cbn [fst]. rewrite Hz.
  unfold setZoomLevel. cbn [viewport zoomLevel].
  unfold of_Z. cbn [jadd]. apply Math_min_Fin.
Qed.

Lemma zoomOut_value (s : AppState) (z : Q) :
  zoomLevel (viewport s) = Fin z ->
  zoomLevel (viewport (dispatch evaluate ZoomOut s))
  = Fin (if Qltb (1 # 2) (z + - (1 # 4)) then z + - (1 # 4) else 1 # 2).
Proof.
  intro Hz. rewrite dispatch_viewport. cbn [handle].
  unfold handleZoomOut, update. cbn [fst]. rewrite Hz.
  unfold setZoomLevel. cbn [viewport zoomLevel].
  unfold jsub. cbn [jneg jadd]. apply Math_max_Fin.
Qed.

End ZoomButtons.

(** In exact arithmetic, zooming in and then out gives back the zoom
    level, as long as zooming in was not clamped: from a level in
    [[0.5, 4.75]] the level is restored, from a level above 4.75 (up to 5)
    it ends at 4.75. *)
Theorem zoom_in_then_out (evaluate : evaluator) (s : Page.AppState) (z : Q) :
  Page.zoomLevel (Page.viewport s) = Fin z ->
  1 # 2 <= z <= 5 ->
  exists q,
    Page.zoomLevel
      (Page.viewport
         (Page.dispatch evaluate Page.ZoomOut
            (Page.dispatch evaluate Page.ZoomIn s))) = Fin q
    /\ (z <= 19 # 4 -> q == z)
    /\ (19 # 4 < z -> q == 19 # 4).
Proof.
  intros Hz [L U].
  rewrite (zoomOut_value evaluate _ (zoomIn_value evaluate s Hz)).
  eexists. split; [reflexivity|].
  destruct (Qltb (z + (1 # 4)) (inject_Z 5)) eqn:A;
    [apply Qltb_true in A | apply Qltb_false in A];
    match goal with
    | |- context [Qltb ?a ?b] =>
        destruct (Qltb a b) eqn:B;
        [apply Qltb_true in B | apply Qltb_false in B]
    end;
    change (inject_Z 5) with 5 in *; split; intro H; lra.
Qed.

(** From the default zoom 1, and from the maximal zoom 5. *)
Lemma zoom_in_then_out_witness :
  exists q,
    Page.zoomLevel
      (Page.viewport
         (Page.dispatch Toy.evaluate Page.ZoomOut
            (Page.dispatch Toy.evaluate Page.ZoomIn Demo.view))) = Fin q
    /\ (1 <= 19 # 4 -> q == 1)
    /\ (19 # 4 < 1 -> q == 19 # 4).
Proof.
  apply (@zoom_in_then_out Toy.evaluate Demo.view 1).
  - reflexivity.
  - split; discriminate.
Defined.

(* ================================================================== *)
(** ** The curves after a recomputation *)

Section CurvesInView.

Import Page.
Local Open Scope Q_scope.

Variable evaluate : evaluator.

Lemma derivativeAt_short (func : string) (pt : Point) :
  (List.length (derivativeAt evaluate func pt) <= 1)%nat.
Proof.
  unfold derivativeAt.
  destruct (numericalDerivative evaluate func (x pt) default_h) as [dv|e];
    [|simpl; lia].
  destruct (displayable dv); simpl; lia.
Qed.

Lemma derivativeAt_x (func : string) (pt dp : Point) :
  In dp (derivativeAt evaluate func pt) -> x dp = x pt.
Proof.
  unfold derivativeAt.
  destruct (numericalDerivative evaluate func (x pt) default_h) as [dv|e];
    [|intros []].
  destruct (displayable dv); [|intros []].
  intros [<- | []]. reflexivity.
Qed.

(** The derivative curve is, function point after function point, what
    each one contributes. *)
Lemma derivativeCurve_flat (func : string) (funcPoints : list Point) :
  derivativeCurve evaluate func funcPoints
  = Ret (flat_map (derivativeAt evaluate func) funcPoints).
Proof.
  unfold derivativeCurve.
  rewrite (for_each_append (derivativeAt evaluate func)); [reflexivity|].
  intros pt acc. unfold derivativeAt.
  destruct (numericalDerivative evaluate func (x pt) default_h) as [dv|e] eqn:E;
    cbn [bind].
  - destruct (displayable dv); [reflexivity | now rewrite app_nil_r].
  - destruct (numericalDerivative_returns evaluate func (x pt) default_h)
      as [v Hv].
    rewrite Hv in E. discriminate.
Qed.

(** Dropping points from an ascending curve leaves it ascending. *)
Lemma flat_map_ascending (func : string) (l : list Point) :
  ascending (map x l) ->
  ascending (map x (flat_map (derivativeAt evaluate func) l)).
Proof.
  unfold ascending. induction l as [|pt l IH]; cbn [map flat_map]; intro H.
  - constructor.
  - inversion H as [|a m Hm Ha]; subst.
    pose proof (derivativeAt_short func pt) as S1.
    pose proof (@derivativeAt_x func pt) as K.
    destruct (derivativeAt evaluate func pt) as [|dp [|dq rest]]; cbn [app map].
    + now apply IH.
    + constructor; [now apply IH|].
      rewrite (K dp (or_introl eq_refl)).
      apply Forall_forall. intros b Hb. apply in_map_iff in Hb.
      destruct Hb as [b0 [<- Hb0]]. apply in_flat_map in Hb0.
      destruct Hb0 as [pt' [Hpt' Hb0]].
      rewrite (@derivativeAt_x func pt' b0 Hb0).
      rewrite Forall_forall in Ha. apply Ha. now apply in_map.
    + simpl in S1. lia.
Qed.

Lemma flat_map_derivative_short (func : string) (l : list Point) :
  (List.length (flat_map (derivativeAt evaluate func) l) <= List.length l)%nat.
Proof.
  induction l as [|pt l IH]; cbn [flat_map]; [simpl; lia|].
  rewrite length_app. pose proof (derivativeAt_short func pt).
  cbn [List.length]. lia.
Qed.

End CurvesInView.

(** In exact arithmetic, after a recomputation from a render whose
    effective range is [lo < hi], both stored curves are strictly ascending
    in [x] and inside the range; the function curve has at most 501 points
    and the derivative curve no more points than the function curve. *)
Theorem recomputed_curves_lie_in_view (evaluate : evaluator)
  (c s : Page.AppState) (lo hi : Q) :
  Page.getEffectiveViewRange c = (Fin lo, Fin hi) ->
  lo < hi ->
  let g := Page.graph (fst (Page.calculateDerivative evaluate c s)) in
  ascending (map Page.x (Page.points g))
  /\ ascending (map Page.x (Page.derivativePoints g))
  /\ (List.length (Page.derivativePoints g) <= List.length (Page.points g) <= 501)%nat
  /\ (forall pt, In pt (Page.points g) \/ In pt (Page.derivativePoints g) ->
        exists q, Page.x pt = Fin q /\ lo <= q <= hi).
Proof.
  intros Heff Hlo g.
  destruct (calculateDerivative_result evaluate c s) as [_ R].
  cbv zeta in R. fold g in R.
  destruct (blankCustom c).
  - destruct R as [-> [-> _]]. cbn [map List.length].
    repeat split; try constructor; try lia.
    intros pt [[] | []].
  - destruct R as [fp [dp [Hfp [Hdp [-> [-> _]]]]]].
    unfold sampledCurve in Hfp. rewrite Heff in Hfp.
    assert (Hn : (0 < Page.default_numPoints)%nat)
      by (unfold Page.default_numPoints; lia).
    destruct (@calculatePoints_order evaluate _ lo hi _ fp Hlo Hn Hfp)
      as [A [L B]].
    rewrite derivativeCurve_flat in Hdp.
    assert (Edp : dp = flat_map (derivativeAt evaluate
                                   (Page.customFunction (Page.inputs c))) fp)
      by congruence.
    split; [exact A|]. split; [rewrite Edp; now apply flat_map_ascending|].
    split.
    + split; [rewrite Edp; apply flat_map_derivative_short|].
      unfold Page.default_numPoints in L. exact L.
    + intros pt [Hin | Hin]; [now apply B|].
      rewrite Edp in Hin. apply in_flat_map in Hin.
      destruct Hin as [pt' [Hpt' Hin]].
      rewrite (@derivativeAt_x evaluate _ pt' pt Hin). now apply B.
Qed.

(** The square function recomputed in the default view. *)
Lemma recomputed_curves_lie_in_view_witness :
  ascending
    (map Page.x
       (Page.points
          (Page.graph (fst (Page.calculateDerivative Toy.evaluate Demo.plotted
                              Demo.plotted)))))
  /\ (List.length
        (Page.points
           (Page.graph (fst (Page.calculateDerivative Toy.evaluate Demo.plotted
                               Demo.plotted)))) <= 501)%nat.
Proof.
  destruct (@recomputed_curves_lie_in_view Toy.evaluate Demo.plotted
              Demo.plotted (-40 # 4) (40 # 4)) as [A [_ [[_ L] _]]].
  - vm_compute. reflexivity.
  - reflexivity.
  - split; [exact A | exact L].
Defined.

(* ================================================================== *)
(** ** Changing the tab of the visualizer *)

(** A change of tab clears the custom function and selects the first
    example of the new tab; the domain becomes that example's
    [defaultDomain], or [[-10, 10]] when it has none, and the tangent point
    the middle of that domain, hence inside it; the chart then gets that
    example's function and derivative. *)
Theorem tab_change_centres_tangent_point (r : Visualizer.Rule)
  (s : Visualizer.State) :
  Visualizer.Rule_eqb r (Visualizer.activeTab s) = false ->
  exists s' first lo hi tp,
    Visualizer.changeTab r s = Ret s'
    /\ hd_error (Visualizer.examples r) = Some first
    /\ Visualizer.activeTab s' = r
    /\ Visualizer.customFunction s' = EmptyString
    /\ Visualizer.selectedExample s' = 0%nat
    /\ Visualizer.domain s'
       = Visualizer.domainOrDefault (Visualizer.defaultDomain first)
    /\ Visualizer.domain s' = (Fin lo, Fin hi)
    /\ Visualizer.tangentPoint s' = Fin tp
    /\ tp == (lo + hi) / 2
    /\ lo <= tp <= hi
    /\ Visualizer.graphProps s'
       = Ret (DerivativeGraph.mkProps (Visualizer.f first) (Visualizer.df first)
                                      (Fin lo, Fin hi) (Fin tp)).
Proof.
  intro H. unfold Visualizer.changeTab. rewrite H.
  destruct r; cbn; do 5 eexists;
    (split; [reflexivity|]); (split; [reflexivity|]);
    (split; [reflexivity|]); (split; [reflexivity|]);
    (split; [reflexivity|]); (split; [reflexivity|]);
    (split; [reflexivity|]); (split; [reflexivity|]);
    (split; [vm_compute; reflexivity|]);
    (split; [split; vm_compute; discriminate | reflexivity]).
Qed.

(** From the trigonometric tab to the product tab, whose first example has
    no domain of its own. *)
Lemma tab_change_centres_tangent_point_witness :
  exists s',
    Visualizer.changeTab Visualizer.product Visualizer.initial = Ret s'
    /\ Visualizer.customFunction s' = EmptyString
    /\ Visualizer.domain s' = (of_Z (-10), of_Z 10).
Proof.
  destruct (@tab_change_centres_tangent_point Visualizer.product
              Visualizer.initial)
    as [s' [first [lo [hi [tp [E [F [_ [C [_ [D _]]]]]]]]]]].
  - reflexivity.
  - exists s'. split; [exact E|]. split; [exact C|].
    rewrite D. cbn in F. now inversion F.
Defined.
